(** * OpenSlots: the SAS protocol core ([openslots/protocols/sas.py])

    A shallow embedding of the checksum, the packed-decimal codec, the
    meters and the secure-enhanced validation number of [sas.py], with the
    properties its specification states about them.

    Python integers are [Z]; [bytes] objects and lists of ints are [list Z];
    Python strings are [list ascii].  A raised exception is a value of
    [result]; a method that reads or writes [self] threads the object. *)

From Stdlib Require Import ZArith List Ascii String Bool Lia Arith.
Import ListNotations.

Local Open Scope Z_scope.

(** ** Exceptions and the error monad *)

Inductive exn : Type :=
| ValueError
| OverflowError
| IndexError
| TypeError.

Inductive result (A : Type) : Type :=
| Ok (a : A)
| Raise (e : exn).

Arguments Ok {A} a.
Arguments Raise {A} e.

Definition bind {A B} (r : result A) (k : A -> result B) : result B :=
  match r with
  | Ok a => k a
  | Raise e => Raise e
  end.

Notation "x <- e ;; k" := (bind e (fun x => k))
  (at level 61, e at next level, right associativity).

Fixpoint mapM {A B} (f : A -> result B) (l : list A) : result (list B) :=
  match l with
  | [] => Ok []
  | x :: xs => y <- f x ;; ys <- mapM f xs ;; Ok (y :: ys)
  end.

(** ** The Python built-ins the module uses *)

Module Py.

Definition str := list ascii.

Definition lit (s : string) : str := list_ascii_of_string s.

(** Octal literals ([0o17], [0o10201]) are kept as their digits. *)
Definition oct (ds : list Z) : Z := fold_left (fun a d => 8 * a + d) ds 0.

Inductive byteorder := little | big.

(** [n] bytes of [z], least significant first. *)
Fixpoint le_bytes (n : nat) (z : Z) : list Z :=
  match n with
  | O => []
  | S k => z mod 256 :: le_bytes k (z / 256)
  end.

(** [int.to_bytes(length, byteorder)], unsigned. *)
Definition to_bytes (z length : Z) (bo : byteorder) : result (list Z) :=
  if length <? 0 then Raise ValueError
  else if z <? 0 then Raise OverflowError
  else if 256 ^ length <=? z then Raise OverflowError
  else Ok (match bo with
           | little => le_bytes (Z.to_nat length) z
           | big => rev (le_bytes (Z.to_nat length) z)
           end).

(** The character of a digit below 16, as [str] and [format(_, 'x')]
    print it. *)
Definition digit_char (d : Z) : ascii :=
  if d <? 10 then ascii_of_nat (48 + Z.to_nat d)
  else ascii_of_nat (87 + Z.to_nat d).

(** The value of a character as a digit in [base]. *)
Definition digit_val (base : Z) (c : ascii) : option Z :=
  let k := Z.of_nat (nat_of_ascii c) in
  let d := if (48 <=? k) && (k <=? 57) then Some (k - 48)
           else if (97 <=? k) && (k <=? 122) then Some (k - 87)
           else if (65 <=? k) && (k <=? 90) then Some (k - 55)
           else None in
  match d with
  | Some v => if v <? base then Some v else None
  | None => None
  end.

(** The digits of [z >= 0] in [base], least significant first; a number
    below [2 ^ fuel] is written out whole. *)
Fixpoint digits_le (fuel : nat) (base z : Z) : list Z :=
  match fuel with
  | O => []
  | S f => if z <? base then [z]
           else z mod base :: digits_le f base (z / base)
  end.

Definition digits (base z : Z) : list Z :=
  rev (digits_le (S (Z.to_nat (Z.log2 z))) base z).

Definition show (base z : Z) : str :=
  if z <? 0 then "-"%char :: map digit_char (digits base (- z))
  else map digit_char (digits base z).

(** [str(z)], within the interpreter's limit on the digits of an int
    (4300 by default; above it [str] raises [ValueError]). *)
Definition str_of_int (z : Z) : str := show 10 z.

(** [format(z, 'x')] *)
Definition format_x (z : Z) : str := show 16 z.

Fixpoint parse_digits (base : Z) (acc : Z) (s : str) : result Z :=
  match s with
  | [] => Ok acc
  | c :: s' =>
      match digit_val base c with
      | Some d => parse_digits base (acc * base + d) s'
      | None => Raise ValueError
      end
  end.

(** [int(s, base)] on a string of digits with an optional sign; the
    empty string is refused. *)
Definition int_of_str (base : Z) (s : str) : result Z :=
  match s with
  | [] => Raise ValueError
  | "-"%char :: [] => Raise ValueError
  | "-"%char :: s' => z <- parse_digits base 0 s' ;; Ok (- z)
  | _ => parse_digits base 0 s
  end.

(** [s.rjust(width, '0')] *)
Definition rjust0 (width : nat) (s : str) : str :=
  repeat "0"%char (width - List.length s) ++ s.

(** ['%08i' % z]: the sign first, then zeros up to eight characters. *)
Definition fmt_08i (z : Z) : str :=
  if z <? 0 then "-"%char :: rjust0 7 (map digit_char (digits 10 (- z)))
  else rjust0 8 (map digit_char (digits 10 z)).

(** [l[i]] for an index [i >= 0]. *)
Definition getitem {A} (l : list A) (i : nat) : result A :=
  match nth_error l i with
  | Some x => Ok x
  | None => Raise IndexError
  end.

(** [l[i] = x] for an index [i >= 0]. *)
Fixpoint setitem {A} (l : list A) (i : nat) (x : A) : result (list A) :=
  match l, i with
  | [], _ => Raise IndexError
  | _ :: t, O => Ok (x :: t)
  | h :: t, S j => t' <- setitem t j x ;; Ok (h :: t')
  end.

(** [l[lo:hi]], [l[lo:]] and [l[:hi]] for bounds [>= 0]. *)
Definition slice {A} (l : list A) (lo hi : nat) : list A :=
  firstn (hi - lo) (skipn lo l).
Definition slice_from {A} (l : list A) (lo : nat) : list A := skipn lo l.
Definition slice_to {A} (l : list A) (hi : nat) : list A := firstn hi l.

(** [sum(l)] *)
Definition sum (l : list Z) : Z := fold_left Z.add l 0.

(** [enumerate(l)] *)
Definition enumerate {A} (l : list A) : list (Z * A) :=
  combine (map Z.of_nat (seq 0 (List.length l))) l.

(** [s.lstrip('_')] *)
Fixpoint lstrip_underscore (s : str) : str :=
  match s with
  | "_"%char :: s' => lstrip_underscore s'
  | _ => s
  end.

End Py.

(** ** Useful functions *)

(** The body of the [for x in b] loop of [crc]: the seed after one byte. *)
Definition crc_body (seed x : Z) : Z :=
  let q := Z.land (Z.lxor seed x) (Py.oct [1; 7]) in
  let seed := Z.lxor (Z.shiftr seed 4) (q * Py.oct [1; 0; 2; 0; 1]) in
  let q := Z.land (Z.lxor seed (Z.shiftr x 4)) (Py.oct [1; 7]) in
  let seed := Z.lxor (Z.shiftr seed 4) (q * Py.oct [1; 0; 2; 0; 1]) in
  seed.

(** The loop of [crc]: the seed after the last byte of [b]. *)
Definition crc_loop (b : list Z) (seed : Z) : Z := fold_left crc_body b seed.

Definition crc (b : list Z) (seed : Z) : result (list Z) :=
  Py.to_bytes (crc_loop b seed) 2 Py.little.

(** The values [seed] takes in the loop of [crc], in order: one for each
    of the two assignments to it in each pass. *)
Fixpoint crc_seeds (b : list Z) (seed : Z) : list Z :=
  match b with
  | [] => []
  | x :: b' =>
      let q := Z.land (Z.lxor seed x) (Py.oct [1; 7]) in
      let seed1 := Z.lxor (Z.shiftr seed 4) (q * Py.oct [1; 0; 2; 0; 1]) in
      let q := Z.land (Z.lxor seed1 (Z.shiftr x 4)) (Py.oct [1; 7]) in
      let seed2 := Z.lxor (Z.shiftr seed1 4) (q * Py.oct [1; 0; 2; 0; 1]) in
      seed1 :: seed2 :: crc_seeds b' seed2
  end.

Definition int_to_bcd (i length : Z) : result (list Z) :=
  if i <? 0 then Raise ValueError
  else if length <? 0 then Raise ValueError
  else h <- Py.int_of_str 16 (Py.str_of_int i) ;;
       Py.to_bytes h length Py.big.

Definition bcd_to_int (x : list Z) : result Z :=
  let s := fold_left (fun s i => s ++ Py.format_x i) x [] in
  Py.int_of_str 16 s.

(** ** Class definitions *)

Record SASMeter : Type := mkSASMeter {
  id : Z;
  size : Z;             (* what [__len__] returns *)
  _value : Z;
  _name : Py.str;
  description : Py.str
}.

Module Meter.

(** [SASMeter(i, size)] *)
Definition __init__ (i size : Z) : SASMeter :=
  mkSASMeter i size 0 [] [].

Definition name (self : SASMeter) : Py.str := _name self.

(** [self.name = s] *)
Definition set_name (self : SASMeter) (s : Py.str) : SASMeter :=
  mkSASMeter (id self) (size self) (_value self) (Py.slice_to s 50)
             (description self).

(** [self.description = s] *)
Definition set_description (self : SASMeter) (s : Py.str) : SASMeter :=
  mkSASMeter (id self) (size self) (_value self) (_name self) s.

Definition value (self : SASMeter) : Z := _value self.

(** [self.value = n] *)
Definition set_value (self : SASMeter) (n : Z) : SASMeter :=
  mkSASMeter (id self) (size self)
             (if n >? _value self then n else _value self)
             (_name self) (description self).

(** [del self.value] *)
Definition del_value (self : SASMeter) : SASMeter :=
  mkSASMeter (id self) (size self) 0 (_name self) (description self).

Definition clear (self : SASMeter) : SASMeter := del_value self.

(** [str(self)] *)
Definition __str__ (self : SASMeter) : Py.str :=
  Py.rjust0 (Z.to_nat (size self * 2)) (Py.str_of_int (value self)).

(** [bytes(self)] *)
Definition __bytes__ (self : SASMeter) : result (list Z) :=
  int_to_bcd (value self) (size self).

(** [self += n] *)
Definition __iadd__ (self : SASMeter) (n : Z) : SASMeter :=
  set_value self (value self + (if n >? 0 then n else 0)).

(** The calls that change a meter, and a run of them from left to
    right. *)
Inductive op : Type :=
| Increment (n : Z)
| Set_ (n : Z)
| Clear.

Definition apply (self : SASMeter) (o : op) : SASMeter :=
  match o with
  | Increment n => __iadd__ self n
  | Set_ n => set_value self n
  | Clear => clear self
  end.

Definition run (self : SASMeter) (os : list op) : SASMeter :=
  fold_left apply os self.

Definition is_clear (o : op) : bool :=
  match o with Clear => true | _ => false end.

End Meter.

Definition catalog_entry : Type := (Z * Z * Py.str * Py.str)%type.

Definition _602_meters : list catalog_entry :=
  [ (0, 4, Py.lit "coin_in", Py.lit "Total coin in credits");
    (1, 4, Py.lit "coin_out", Py.lit "Total coin out credits") ].

Record SASGame : Type := mkSASGame {
  _v_id : Z;
  _v_seq : Z;
  _meters : list catalog_entry;
  meters : list (Py.str * SASMeter)    (* the dict, in insertion order *)
}.

Module Game.

Definition str_eqb (s t : Py.str) : bool :=
  if list_eq_dec ascii_dec s t then true else false.

(** [d[k] = v] *)
Fixpoint dict_set (d : list (Py.str * SASMeter)) (k : Py.str) (v : SASMeter)
  : list (Py.str * SASMeter) :=
  match d with
  | [] => [(k, v)]
  | (k', v') :: d' =>
      if str_eqb k' k then (k, v) :: d' else (k', v') :: dict_set d' k v
  end.

Fixpoint foldM {A S} (f : S -> A -> result S) (l : list A) (s : S)
  : result S :=
  match l with
  | [] => Ok s
  | x :: xs => s' <- f s x ;; foldM f xs s'
  end.

(** The attribute [self.meters] while [__init__] runs: the dict it was
    given, or the meter [setattr] has put in its place. *)
Inductive meters_attr : Type :=
| Dict (d : list (Py.str * SASMeter))
| NotDict (m : SASMeter).

(** [setattr(self, name, m)].  The name has lost its leading underscores,
    so it is none of [_v_id], [_v_seq] and [_meters]; the name [meters]
    replaces the dict by the meter.  Under any other name the meter
    becomes an attribute of the game beside its dict entry, and the dict
    stands for both (a meter named as a method hides that method on the
    game it is set on, which the record does not show). *)
Definition setattr (ms : meters_attr) (name : Py.str) (m : SASMeter)
  : meters_attr :=
  if str_eqb name (Py.lit "meters") then NotDict m else ms.

(** [self.meters[k] = v]: a meter does not support item assignment. *)
Definition meters_setitem (ms : meters_attr) (k : Py.str) (v : SASMeter)
  : result meters_attr :=
  match ms with
  | Dict d => Ok (Dict (dict_set d k v))
  | NotDict _ => Raise TypeError
  end.

(** [SASGame(meters)]: the game built, or the error the constructor
    raises. *)
Definition __init__ (catalog : list catalog_entry) : result SASGame :=
  ms <- foldM
          (fun ms (m : catalog_entry) =>
             let '(m0, m1, m2, m3) := m in
             let this_m := Meter.__init__ m0 m1 in
             let this_m := Meter.set_name this_m (Py.lstrip_underscore m2) in
             let this_m := Meter.set_description this_m m3 in
             let ms := setattr ms (Meter.name this_m) this_m in
             meters_setitem ms (Meter.name this_m) this_m)
          catalog (Dict []) ;;
  match ms with
  | Dict d => Ok (mkSASGame 0 0 catalog d)
  | NotDict _ => Raise TypeError
  end.

(** Lines 144-168 of [SE_validation_number]: the sixteen digits, last
    digit first. *)
Definition SE_digits (self : SASGame) : result (list Z) :=
  a <- Py.to_bytes (_v_seq self) 3 Py.little ;;
  a' <- Py.to_bytes (_v_id self) 3 Py.little ;;
  let a := a ++ a' in
  let b := repeat 0 6 in
  a5 <- Py.getitem a 5 ;; a1 <- Py.getitem a 1 ;;
  b <- Py.setitem b 5 (Z.lxor a5 a1) ;;
  a4 <- Py.getitem a 4 ;; a0 <- Py.getitem a 0 ;;
  b <- Py.setitem b 4 (Z.lxor a4 a0) ;;
  a3 <- Py.getitem a 3 ;; a1 <- Py.getitem a 1 ;;
  b <- Py.setitem b 3 (Z.lxor a3 a1) ;;
  a2 <- Py.getitem a 2 ;; a0 <- Py.getitem a 0 ;;
  b <- Py.setitem b 2 (Z.lxor a2 a0) ;;
  a1 <- Py.getitem a 1 ;;
  b <- Py.setitem b 1 a1 ;;
  a0 <- Py.getitem a 0 ;;
  b <- Py.setitem b 0 a0 ;;
  c <- crc (Py.slice_to b 2) 0 ;;
  c' <- crc (Py.slice b 2 4) 0 ;;
  let c := c ++ c' in
  c' <- crc (Py.slice_from b 4) 0 ;;
  let c := c ++ c' in
  let n := [0; 0] in
  n <- foldM (fun n '(i, v) =>
                n0 <- Py.getitem n 0 ;;
                Py.setitem n 0 (n0 + Z.shiftl v (i * 8)))
             (Py.enumerate (Py.slice_from c 3)) n ;;
  n <- foldM (fun n '(i, v) =>
                n1 <- Py.getitem n 1 ;;
                Py.setitem n 1 (n1 + Z.shiftl v (i * 8)))
             (Py.enumerate (Py.slice_to c 3)) n ;;
  n0 <- Py.getitem n 0 ;; n1 <- Py.getitem n 1 ;;
  v <- mapM (fun x => Py.int_of_str 10 [x])
            (Py.fmt_08i n0 ++ Py.fmt_08i n1) ;;
  Ok (rev v).

(** Lines 169-170: the two check values are or-ed into places 7 and
    15. *)
Definition SE_inject (v : list Z) : result (list Z) :=
  v7 <- Py.getitem v 7 ;;
  v <- Py.setitem v 7
         (Z.lor v7 (Z.shiftl (Py.sum (Py.slice_to v 8) mod 5) 1)) ;;
  v15 <- Py.getitem v 15 ;;
  Py.setitem v 15
    (Z.lor v15 (Z.shiftl (Py.sum (Py.slice_from v 8) mod 5) 1)).

(** Lines 171-173: back in order, each element printed by [str]. *)
Definition SE_render (v : list Z) : Py.str :=
  let v := rev v in
  Py.lit "00" ++ List.concat (map Py.str_of_int v).

Definition SE_validation_number_result (self : SASGame) : result Py.str :=
  v <- SE_digits self ;;
  v <- SE_inject v ;;
  Ok (SE_render v).

(** The method: what it returns or raises, and the object after the
    call.  No statement of the method assigns to an attribute of
    [self]. *)
Definition SE_validation_number (self : SASGame)
  : result Py.str * SASGame :=
  (SE_validation_number_result self, self).

End Game.

(** ** The specification's reference definitions

    Written from the words of the specification, to be compared with the
    definitions above. *)

Module Spec.

(** One nibble step of the checksum (spec 4.2). *)
Definition nibble_step (seed slice : Z) : Z :=
  let q := Z.land (Z.lxor seed slice) 0xF in
  Z.lxor (Z.shiftr seed 4) (q * 0x1081).

(** The accumulator: low nibble, then high nibble, of every byte. *)
Fixpoint accumulate (bytes : list Z) (seed : Z) : Z :=
  match bytes with
  | [] => seed
  | x :: rest =>
      accumulate rest (nibble_step (nibble_step seed x) (Z.shiftr x 4))
  end.

(** The final 16-bit seed, least significant byte first. *)
Definition checksum (bytes : list Z) (seed : Z) : list Z :=
  let s := accumulate bytes seed in
  [Z.land s 0xFF; Z.shiftr s 8].

(** Three bytes of a 24-bit value, least significant first (4.5 step 1). *)
Definition le3 (z : Z) : list Z :=
  [z mod 256; (z / 256) mod 256; (z / 65536) mod 256].

(** The fixed XOR wiring (step 2). *)
Definition scramble (a : list Z) : list Z :=
  let a_ i := nth i a 0 in
  [ a_ 0%nat; a_ 1%nat;
    Z.lxor (a_ 2%nat) (a_ 0%nat); Z.lxor (a_ 3%nat) (a_ 1%nat);
    Z.lxor (a_ 4%nat) (a_ 0%nat); Z.lxor (a_ 5%nat) (a_ 1%nat) ].

(** Three checksums of two bytes each, seed 0 (step 3). *)
Definition checksums (b : list Z) : list Z :=
  checksum (firstn 2 b) 0 ++ checksum (firstn 2 (skipn 2 b)) 0
    ++ checksum (firstn 2 (skipn 4 b)) 0.

(** Little-endian combination of three bytes (step 4). *)
Definition combine3 (x y z : Z) : Z := x + Z.shiftl y 8 + Z.shiftl z 16.

(** Eight decimal digits, most significant first (step 5). *)
Definition dec8 (n : Z) : list Z :=
  map (fun k => (n / 10 ^ k) mod 10) [7; 6; 5; 4; 3; 2; 1; 0].

Definition total (l : list Z) : Z := fold_right Z.add 0 l.

Definition update (l : list Z) (i : nat) (x : Z) : list Z :=
  firstn i l ++ x :: skipn (S i) l.

(** The check-digit injection (step 7). *)
Definition inject (v : list Z) : list Z :=
  let check_lo := total (firstn 8 v) mod 5 in
  let v := update v 7 (Z.lor (nth 7 v 0) (Z.shiftl check_lo 1)) in
  let check_hi := total (skipn 8 v) mod 5 in
  update v 15 (Z.lor (nth 15 v 0) (Z.shiftl check_hi 1)).

(** One element, one character. *)
Definition digit_character (d : Z) : ascii :=
  ascii_of_nat (48 + Z.to_nat d).

(** The two numbers of step 4, [n0] then [n1]. *)
Definition numbers (seq id : Z) : Z * Z :=
  let a := le3 seq ++ le3 id in
  let b := scramble a in
  let c := checksums b in
  let c_ i := nth i c 0 in
  (combine3 (c_ 3%nat) (c_ 4%nat) (c_ 5%nat),
   combine3 (c_ 0%nat) (c_ 1%nat) (c_ 2%nat)).

(** The sixteen elements after step 7, in the reversed order of step 6. *)
Definition injected (seq id : Z) : list Z :=
  let '(n0, n1) := numbers seq id in
  let v := dec8 n0 ++ dec8 n1 in
  let v := rev v in
  inject v.

(** The whole pipeline of 4.5, steps 1 to 9. *)
Definition validation_number (seq id : Z) : Py.str :=
  let v := injected seq id in
  let v := rev v in
  Py.lit "00" ++ map digit_character v.

(** The magnitude the codec encodes: the decimal digits of [value],
    read in base 16 (4.1). *)
Definition magnitude (value : Z) : Z :=
  fold_left (fun acc d => acc * 16 + d) (Py.digits 10 value) 0.

(** A byte as exactly two lowercase hexadecimal characters. *)
Definition hex2 (b : Z) : Py.str :=
  [Py.digit_char (b / 16); Py.digit_char (b mod 16)].

(** [decode] as the specification words it (4.1). *)
Definition decode (bytes : list Z) : result Z :=
  Py.int_of_str 16 (List.concat (map hex2 bytes)).

(** The big-endian value of a byte sequence. *)
Definition be_value (bytes : list Z) : Z :=
  fold_left (fun acc b => acc * 256 + b) bytes 0.

(** Decimal digits packed two to a byte: the [width * 2] digits of
    [value], zero-padded on the left (4.3). *)
Definition packed (width : nat) (value : Z) : list Z :=
  map (fun k => let i := Z.of_nat (width - 1 - k) in
                16 * ((value / 10 ^ (2 * i + 1)) mod 10)
                + (value / 10 ^ (2 * i)) mod 10)
      (seq 0 width).

End Spec.

(** ** Ranges

    The ranges the statements below speak of. *)

Definition word16 (s : Z) : Prop := 0 <= s < 2 ^ 16.

Definition byte (b : Z) : Prop := 0 <= b < 256.

Definition counter (z : Z) : Prop := 0 <= z < 2 ^ 24.

Definition digit (base d : Z) : Prop := 0 <= d < base.

Definition decimal (d : Z) : Prop := 0 <= d < 10.

(** The value of a digit string, most significant digit first. *)
Definition horner (b : Z) (ds : list Z) (acc : Z) : Z :=
  fold_left (fun a d => a * b + d) ds acc.

(** One more character for an element printed with two. *)
Definition extra (x : Z) : nat := if x <? 10 then 0%nat else 1%nat.

(** ** Further definitions, used by the further properties below *)

(** The default of [sys.get_int_max_str_digits()].  On an interpreter
    with this limit [str(i)] and [int(s)] raise [ValueError] for more than
    that many digits; [Py.str_of_int] and [Py.int_of_str] are [str] and
    [int] below the limit, and the statements about values a caller
    chooses keep below it. *)
Definition max_str_digits : Z := 4300.

(** [n] consecutive integers from [start]. *)
Fixpoint zrange (n : nat) (start : Z) : list Z :=
  match n with
  | O => []
  | S k => start :: zrange k (start + 1)
  end.

(** The two input bytes, as [x0 + 256 * x1], that [crc] with seed 0 maps
    to the 16-bit value [y]: the checksum is linear over bits, so the
    answer is the XOR of the answers for the bits set in [y]. *)
Definition crc_preimage (y : Z) : Z :=
  fold_left
    (fun acc '(i, t) => if Z.testbit y i then Z.lxor acc t else acc)
    (combine (zrange 16 0)
       [2065; 4130; 8260; 16520; 33040; 2609; 5218; 10436;
        20872; 41744; 20017; 40034; 12501; 25002; 50004; 36537])
    0.

(** A byte string read as packed decimal: each byte is two decimal
    digits, high nibble first. *)
Definition packed_decimal_value (bytes : list Z) : Z :=
  fold_left (fun acc b => acc * 100 + (10 * (b / 16) + b mod 16)) bytes 0.

(** A byte string read the way [bcd_to_int] reads it: a byte below 16
    counts for one hexadecimal digit, any other byte for two. *)
Definition ragged_hex_value (bytes : list Z) : Z :=
  fold_left (fun acc b => acc * (if b <? 16 then 16 else 256) + b) bytes 0.

(** A byte whose two nibbles are decimal digits. *)
Definition bcd_byte (b : Z) : Prop := 0 <= b / 16 <= 9 /\ 0 <= b mod 16 <= 9.

(** The hexadecimal digits [format(b, 'x')] prints for a byte. *)
Definition hex_digits (b : Z) : list Z :=
  if b <? 16 then [b] else [b / 16; b mod 16].

(** [d.get(k)]: the value stored under [k], if any. *)
Fixpoint dict_get (d : list (Py.str * SASMeter)) (k : Py.str)
  : option SASMeter :=
  match d with
  | [] => None
  | (k', v) :: d' => if Game.str_eqb k' k then Some v else dict_get d' k
  end.

(** The key [SASGame.__init__] files a catalog entry under, and the meter
    it files there. *)
Definition entry_key (e : catalog_entry) : Py.str :=
  let '(_, _, m2, _) := e in Py.slice_to (Py.lstrip_underscore m2) 50.

Definition entry_meter (e : catalog_entry) : SASMeter :=
  let '(m0, m1, _, m3) := e in mkSASMeter m0 m1 0 (entry_key e) m3.

(** The dict after the loop of [SASGame.__init__] has run over [catalog]
    from the dict [d]. *)
Definition build (catalog : list catalog_entry)
           (d : list (Py.str * SASMeter)) : list (Py.str * SASMeter) :=
  fold_left (fun d e => Game.dict_set d (entry_key e) (entry_meter e))
            catalog d.

(** A character from ['0'] to ['9']. *)
Definition decimal_char (c : ascii) : Prop :=
  (48 <= nat_of_ascii c <= 57)%nat.

(** The check a reader of a validation number can run on one of its two
    groups of eight digits: the first digit holds, above its lowest bit,
    the sum modulo 5 of that bit and the seven digits after it. *)
Definition group_checks (x : Z) (rest : list Z) : Prop :=
  (x mod 2 + fold_right Z.add 0 rest) mod 5 = x / 2.

(** * Properties *)

(** ** Bounds on the bit operations *)

Section Bits.

Lemma log2_lt (a n : Z) : 0 < n -> 0 <= a < 2 ^ n -> Z.log2 a < n.
Proof.
  intros Hn [Ha Hlt].
  destruct (Z.eq_dec a 0) as [->|Hne].
  - exact Hn.
  - apply Z.log2_lt_pow2; lia.
Qed.

Lemma lt_of_log2 (a n : Z) : 0 <= n -> 0 <= a -> Z.log2 a < n -> a < 2 ^ n.
Proof.
  intros Hn Ha Hl.
  destruct (Z.eq_dec a 0) as [->|Hne].
  - apply Z.pow_pos_nonneg; lia.
  - apply Z.log2_lt_pow2; lia.
Qed.

Lemma lxor_bound (n a b : Z) :
  0 < n -> 0 <= a < 2 ^ n -> 0 <= b < 2 ^ n -> 0 <= Z.lxor a b < 2 ^ n.
Proof.
  intros Hn Ha Hb. split.
  - apply Z.lxor_nonneg; lia.
  - apply lt_of_log2; [lia | apply Z.lxor_nonneg; lia |].
    pose proof (Z.log2_lxor a b ltac:(lia) ltac:(lia)).
    pose proof (log2_lt a n ltac:(lia) Ha).
    pose proof (log2_lt b n ltac:(lia) Hb). lia.
Qed.

Lemma lor_bound (n a b : Z) :
  0 < n -> 0 <= a < 2 ^ n -> 0 <= b < 2 ^ n -> 0 <= Z.lor a b < 2 ^ n.
Proof.
  intros Hn Ha Hb. split.
  - apply Z.lor_nonneg; lia.
  - apply lt_of_log2; [lia | apply Z.lor_nonneg; lia |].
    pose proof (Z.log2_lor a b ltac:(lia) ltac:(lia)).
    pose proof (log2_lt a n ltac:(lia) Ha).
    pose proof (log2_lt b n ltac:(lia) Hb). lia.
Qed.

Lemma land_15 (x : Z) : 0 <= Z.land x 15 < 16.
Proof.
  change 15 with (Z.ones 4). rewrite Z.land_ones by lia.
  apply Z.mod_pos_bound. reflexivity.
Qed.

Lemma shiftr4_bound (s : Z) : 0 <= s < 2 ^ 16 -> 0 <= Z.shiftr s 4 < 2 ^ 12.
Proof.
  intros H. rewrite Z.shiftr_div_pow2 by lia.
  change (2 ^ 4) with 16. change (2 ^ 12) with 4096.
  change (2 ^ 16) with 65536 in H.
  split; [apply Z.div_pos; lia | apply Z.div_lt_upper_bound; lia].
Qed.

End Bits.

(** ** The checksum *)

Section Checksum.

Lemma nibble_step_word16 (seed slice : Z) :
  word16 seed -> word16 (Spec.nibble_step seed slice).
Proof.
  intros Hs. unfold word16, Spec.nibble_step. cbv zeta.
  pose proof (land_15 (Z.lxor seed slice)) as Hq.
  pose proof (shiftr4_bound seed Hs) as Hr.
  apply lxor_bound; [lia | |].
  - change (2 ^ 12) with 4096 in Hr. change (2 ^ 16) with 65536. lia.
  - change (2 ^ 16) with 65536. lia.
Qed.

Lemma crc_body_steps (seed x : Z) :
  crc_body seed x
  = Spec.nibble_step (Spec.nibble_step seed x) (Z.shiftr x 4).
Proof. reflexivity. Qed.

Lemma crc_loop_accumulate (b : list Z) (seed : Z) :
  crc_loop b seed = Spec.accumulate b seed.
Proof.
  unfold crc_loop. revert seed.
  induction b as [|x b IH]; intros seed; [reflexivity|].
  cbn [fold_left Spec.accumulate]. rewrite IH, crc_body_steps. reflexivity.
Qed.

Lemma crc_body_word16 (seed x : Z) :
  word16 seed -> word16 (crc_body seed x).
Proof.
  intros H. rewrite crc_body_steps. now do 2 apply nibble_step_word16.
Qed.

Lemma crc_loop_word16 (b : list Z) (seed : Z) :
  word16 seed -> word16 (crc_loop b seed).
Proof.
  unfold crc_loop. revert seed.
  induction b as [|x b IH]; intros seed H; [exact H|].
  cbn [fold_left]. apply IH, crc_body_word16, H.
Qed.

Lemma crc_seeds_steps (x : Z) (b : list Z) (seed : Z) :
  crc_seeds (x :: b) seed
  = Spec.nibble_step seed x
    :: crc_body seed x :: crc_seeds b (crc_body seed x).
Proof. reflexivity. Qed.

Lemma seeds_word16 (b : list Z) (seed : Z) :
  word16 seed -> Forall word16 (crc_seeds b seed).
Proof.
  revert seed. induction b as [|x b IH]; intros seed H; [constructor|].
  rewrite crc_seeds_steps.
  repeat constructor; try apply IH; try apply crc_body_word16;
    try apply nibble_step_word16; exact H.
Qed.

Lemma last_shift {A} (l : list A) (a d : A) : last (a :: l) d = last l a.
Proof.
  revert a d. induction l as [|y l IH]; intros a d; [reflexivity|].
  change (last (a :: y :: l) d) with (last (y :: l) d).
  rewrite (IH y d), (IH y a). reflexivity.
Qed.

Lemma crc_seeds_length (b : list Z) (seed : Z) :
  List.length (crc_seeds b seed) = (2 * List.length b)%nat.
Proof.
  revert seed. induction b as [|x b IH]; intros seed; [reflexivity|].
  rewrite crc_seeds_steps. cbn [List.length]. rewrite IH. lia.
Qed.

(** The last seed of the trace is the one [crc] serializes. *)
Lemma seeds_last (b : list Z) (seed : Z) :
  last (crc_seeds b seed) seed = crc_loop b seed.
Proof.
  unfold crc_loop. revert seed.
  induction b as [|x b IH]; intros seed; [reflexivity|].
  rewrite crc_seeds_steps. cbn [fold_left].
  rewrite !last_shift, IH. reflexivity.
Qed.

Lemma to_bytes_2_little (s : Z) :
  word16 s -> Py.to_bytes s 2 Py.little = Ok [s mod 256; s / 256].
Proof.
  intros [H0 H1]. unfold Py.to_bytes.
  change (2 <? 0) with false. cbv iota.
  destruct (Z.ltb_spec s 0); [lia|].
  change (256 ^ 2) with (2 ^ 16).
  destruct (Z.leb_spec (2 ^ 16) s); [lia|].
  change (Z.to_nat 2) with 2%nat. cbn [Py.le_bytes].
  change (2 ^ 16) with 65536 in *.
  rewrite (Z.mod_small (s / 256)); [reflexivity|].
  split; [apply Z.div_pos; lia | apply Z.div_lt_upper_bound; lia].
Qed.

Lemma crc_ok (b : list Z) (seed : Z) :
  word16 seed ->
  crc b seed = Ok [crc_loop b seed mod 256; crc_loop b seed / 256].
Proof.
  intros H. unfold crc. apply to_bytes_2_little, crc_loop_word16, H.
Qed.

Lemma crc_is_checksum (b : list Z) (seed : Z) :
  word16 seed -> crc b seed = Ok (Spec.checksum b seed).
Proof.
  intros H. rewrite (crc_ok b seed H). unfold Spec.checksum. cbv zeta.
  rewrite <- (crc_loop_accumulate b seed).
  change 0xFF with (Z.ones 8). rewrite Z.land_ones by lia.
  rewrite Z.shiftr_div_pow2 by lia. reflexivity.
Qed.

End Checksum.

(** C3: on every input and every 16-bit seed, [crc] returns what the
    specification's accumulator gives: two nibble steps per byte, low
    nibble first, the seed carried over, and the final seed as two bytes,
    least significant first.  The input need not even be 8-bit values.
    On [[0; 0]] with seed 0 the result is [[0; 0]]. *)
Theorem crc_refines_checksum (b : list Z) (seed : Z) :
  0 <= seed < 2 ^ 16 ->
  crc b seed = Ok (Spec.checksum b seed)
  /\ crc [0; 0] 0 = Ok [0; 0].
Proof.
  intros H. split; [exact (crc_is_checksum b seed H) | reflexivity].
Qed.

Lemma crc_refines_checksum_witness :
  crc [1; 0] 7 = Ok (Spec.checksum [1; 0] 7)
  /\ crc [0; 0] 0 = Ok [0; 0].
Proof. apply (crc_refines_checksum [1; 0] 7). lia. Defined.

(** C9: from a seed below [2 ^ 16] the accumulator stays below [2 ^ 16]
    after every nibble step, whatever the input, so the serialization to
    two bytes cannot fail: [crc] returns, and returns exactly two bytes. *)
Theorem crc_total (b : list Z) (seed : Z) :
  0 <= seed < 2 ^ 16 ->
  Forall (fun s => 0 <= s < 2 ^ 16) (crc_seeds b seed)
  /\ List.length (crc_seeds b seed) = (2 * List.length b)%nat
  /\ last (crc_seeds b seed) seed = crc_loop b seed
  /\ exists out, crc b seed = Ok out /\ List.length out = 2%nat.
Proof.
  intros H. split; [|split; [|split]].
  - exact (seeds_word16 b seed H).
  - apply crc_seeds_length.
  - apply seeds_last.
  - eexists. split; [apply crc_ok, H | reflexivity].
Qed.

Lemma crc_total_witness :
  Forall (fun s => 0 <= s < 2 ^ 16) (crc_seeds [255; 18] 65535)
  /\ List.length (crc_seeds [255; 18] 65535) = (2 * 2)%nat
  /\ last (crc_seeds [255; 18] 65535) 65535 = crc_loop [255; 18] 65535
  /\ exists out, crc [255; 18] 65535 = Ok out /\ List.length out = 2%nat.
Proof. apply (crc_total [255; 18] 65535). lia. Defined.

(** ** Meters *)

Section Meters.

Import Meter.

Lemma set_value_le (m : SASMeter) (n : Z) :
  n <= value m -> set_value m n = m.
Proof.
  intros H. destruct m as [i sz v nm d]. unfold set_value, value in *.
  cbn [_value id size _name description] in *.
  destruct (Z.gtb_spec n v); [lia | reflexivity].
Qed.

Lemma set_value_gt (m : SASMeter) (n : Z) :
  value m < n -> value (set_value m n) = n.
Proof.
  intros H. unfold set_value, value in *. cbn [_value].
  destruct (Z.gtb_spec n (_value m)); [reflexivity | lia].
Qed.

Lemma value_set_value (m : SASMeter) (n : Z) :
  value (set_value m n) = Z.max n (value m).
Proof.
  unfold set_value, value. cbn [_value].
  destruct (Z.gtb_spec n (_value m)); lia.
Qed.

Lemma value_iadd (m : SASMeter) (n : Z) :
  value (__iadd__ m n) = value m + Z.max n 0.
Proof.
  unfold __iadd__. rewrite value_set_value.
  destruct (Z.gtb_spec n 0); lia.
Qed.

Lemma apply_monotone (m : SASMeter) (o : op) :
  is_clear o = false -> value m <= value (apply m o).
Proof.
  destruct o as [n|n|]; cbn [is_clear apply]; intros H.
  - rewrite value_iadd. lia.
  - rewrite value_set_value. lia.
  - discriminate.
Qed.

Lemma run_monotone (os : list op) (m : SASMeter) :
  forallb (fun o => negb (is_clear o)) os = true ->
  value m <= value (run m os).
Proof.
  unfold run. revert m.
  induction os as [|o os IH]; intros m H; cbn [fold_left]; [lia|].
  cbn [forallb] in H. apply andb_prop in H as [Ho Hos].
  apply negb_true_iff in Ho.
  pose proof (apply_monotone m o Ho). specialize (IH (apply m o) Hos). lia.
Qed.

(** Every meter a program can hold: built by the constructor, then
    changed by the three calls. *)
Lemma run_nonneg (os : list op) (m : SASMeter) :
  0 <= value m -> 0 <= value (run m os).
Proof.
  unfold run. revert m.
  induction os as [|o os IH]; intros m H; cbn [fold_left]; [exact H|].
  apply IH. destruct o as [n|n|]; cbn [apply].
  - rewrite value_iadd. lia.
  - rewrite value_set_value. lia.
  - reflexivity.
Qed.

End Meters.

(** C4: through any run of increment, set and clear calls the value of a
    meter goes down only at a clear.  A set to a value that is not above
    the current one and an increment by a delta that is not positive leave
    the meter as it is, an increment by a positive delta adds it, and a
    clear gives value 0.  The three calls are total functions: none can
    raise. *)
Theorem meter_never_decreases (m : SASMeter) (os : list Meter.op) (n : Z) :
  (forall pre o post, os = pre ++ o :: post -> Meter.is_clear o = false ->
     Meter.value (Meter.run m pre) <= Meter.value (Meter.run m (pre ++ [o])))
  /\ (forallb (fun o => negb (Meter.is_clear o)) os = true ->
      Meter.value m <= Meter.value (Meter.run m os))
  /\ (n <= Meter.value m -> Meter.set_value m n = m)
  /\ (n <= 0 -> Meter.__iadd__ m n = m)
  /\ (0 < n -> Meter.value (Meter.__iadd__ m n) = Meter.value m + n)
  /\ Meter.value (Meter.clear m) = 0.
Proof.
  repeat split.
  - intros pre o post _ Ho. unfold Meter.run. rewrite fold_left_app.
    cbn [fold_left]. apply apply_monotone, Ho.
  - apply run_monotone.
  - apply set_value_le.
  - intros Hn. unfold Meter.__iadd__.
    destruct (Z.gtb_spec n 0); [lia|]. apply set_value_le. lia.
  - intros Hn. rewrite value_iadd. lia.
Qed.

Lemma meter_never_decreases_witness :
  Meter.value (Meter.run (Meter.__init__ 0 4) [Meter.Set_ 7; Meter.Increment 3])
  <= Meter.value
       (Meter.run (Meter.__init__ 0 4)
          ([Meter.Set_ 7; Meter.Increment 3] ++ [Meter.Set_ 2]))
  /\ Meter.value (Meter.__init__ 0 4)
     <= Meter.value
          (Meter.run (Meter.__init__ 0 4)
             [Meter.Set_ 7; Meter.Increment 3; Meter.Set_ 2;
              Meter.Increment (-4)])
  /\ Meter.set_value (Meter.__init__ 0 4) (-5) = Meter.__init__ 0 4
  /\ Meter.__iadd__ (Meter.__init__ 0 4) (-5) = Meter.__init__ 0 4
  /\ Meter.value (Meter.__iadd__ (Meter.run (Meter.__init__ 0 4) [Meter.Set_ 7]) 5)
     = Meter.value (Meter.run (Meter.__init__ 0 4) [Meter.Set_ 7]) + 5.
Proof.
  destruct (meter_never_decreases (Meter.__init__ 0 4)
              [Meter.Set_ 7; Meter.Increment 3; Meter.Set_ 2;
               Meter.Increment (-4)] (-5))
    as (Hstep & Hrun & Hset & Hadd & _ & _).
  destruct (meter_never_decreases
              (Meter.run (Meter.__init__ 0 4) [Meter.Set_ 7]) [] 5)
    as (_ & _ & _ & _ & Hpos & _).
  split; [|split; [|split; [|split]]].
  - apply (Hstep [Meter.Set_ 7; Meter.Increment 3] (Meter.Set_ 2)
             [Meter.Increment (-4)]); reflexivity.
  - apply Hrun. reflexivity.
  - apply Hset. vm_compute. discriminate.
  - apply Hadd. lia.
  - apply Hpos. lia.
Defined.

(** C5: on a meter whose value is 0, for [0 <= d1 <= d2], setting [d1]
    then [d2] and setting [d2] then [d1] both end with value [d2]. *)
Theorem meter_set_either_order (m : SASMeter) (d1 d2 : Z) :
  Meter.value m = 0 -> 0 <= d1 -> d1 <= d2 ->
  Meter.value (Meter.set_value (Meter.set_value m d1) d2) = d2
  /\ Meter.value (Meter.set_value (Meter.set_value m d2) d1) = d2.
Proof.
  intros H0 H1 H2. rewrite !value_set_value, H0. lia.
Qed.

Lemma meter_set_either_order_witness :
  Meter.value (Meter.set_value (Meter.set_value (Meter.__init__ 1 4) 3) 8) = 8
  /\ Meter.value (Meter.set_value (Meter.set_value (Meter.__init__ 1 4) 8) 3) = 8.
Proof.
  apply (meter_set_either_order (Meter.__init__ 1 4) 3 8); [reflexivity | lia | lia].
Defined.

(** ** Digits *)

Section Digits.

Variable base : Z.
Hypothesis base_ge_2 : 2 <= base.

Lemma digits_le_fuel (f1 : nat) :
  forall (f2 : nat) (z : Z),
    0 <= z < 2 ^ Z.of_nat (S f1) -> z < 2 ^ Z.of_nat (S f2) ->
    Py.digits_le (S f1) base z = Py.digits_le (S f2) base z.
Proof.
  induction f1 as [|f1 IH]; intros f2 z Hz Hz2.
  - change (2 ^ Z.of_nat 1) with 2 in Hz. cbn [Py.digits_le].
    destruct (Z.ltb_spec z base); [reflexivity | lia].
  - cbn [Py.digits_le]. destruct (Z.ltb_spec z base) as [|Hge]; [reflexivity|].
    f_equal.
    assert (Hq : 0 <= z / base <= z / 2).
    { split; [apply Z.div_pos; lia|].
      apply Z.div_le_compat_l; lia. }
    assert (Hq1 : 1 <= z / base).
    { apply Z.div_le_lower_bound; lia. }
    assert (Hh : forall f : nat, z < 2 ^ Z.of_nat (S f) ->
                                 z / 2 < 2 ^ Z.of_nat f).
    { intros f Hf. apply Z.div_lt_upper_bound; [lia|].
      rewrite Nat2Z.inj_succ, Z.pow_succ_r in Hf by lia. exact Hf. }
    pose proof (Hh (S f1) (proj2 Hz)) as B1.
    pose proof (Hh f2 Hz2) as B2.
    destruct f2 as [|f2].
    { change (2 ^ Z.of_nat 0) with 1 in B2. lia. }
    apply IH; lia.
Qed.

(** The digits of a number: the digits of its quotient by the base,
    then its last digit. *)
Lemma digits_unfold (z : Z) :
  0 <= z ->
  Py.digits base z
  = if z <? base then [z] else Py.digits base (z / base) ++ [z mod base].
Proof.
  intros Hz. unfold Py.digits. cbn [Py.digits_le].
  destruct (Z.ltb_spec z base) as [|Hge]; [reflexivity|].
  cbn [rev]. do 2 f_equal.
  assert (Hq1 : 1 <= z / base) by (apply Z.div_le_lower_bound; lia).
  assert (Hq2 : z / base <= z / 2).
  { apply Z.div_le_compat_l; lia. }
  assert (Hl : 1 <= Z.log2 z).
  { apply Z.log2_le_pow2; [lia | change (2 ^ 1) with 2; lia]. }
  pose proof (Z.log2_spec z ltac:(lia)) as [_ Hs].
  pose proof (Z.log2_spec (z / base) ltac:(lia)) as [_ Hs'].
  destruct (Z.to_nat (Z.log2 z)) as [|k] eqn:Ek; [lia|].
  apply digits_le_fuel.
  - split; [lia|].
    apply Z.le_lt_trans with (z / 2); [exact Hq2|].
    apply Z.div_lt_upper_bound; [lia|].
    rewrite <- Z.pow_succ_r by lia.
    replace (Z.succ (Z.of_nat (S k))) with (Z.succ (Z.log2 z)) by lia.
    exact Hs.
  - replace (Z.of_nat (S (Z.to_nat (Z.log2 (z / base)))))
      with (Z.succ (Z.log2 (z / base)))
      by (pose proof (Z.log2_nonneg (z / base)); lia).
    exact Hs'.
Qed.

Lemma digits_ind (P : Z -> Prop) :
  (forall z, 0 <= z < base -> P z) ->
  (forall z, base <= z -> P (z / base) -> P z) ->
  forall z, 0 <= z -> P z.
Proof.
  intros Hsmall Hbig z Hz. generalize Hz. revert z Hz.
  apply (Z_lt_induction (fun z => 0 <= z -> P z)). intros z IH Hz.
  destruct (Z_lt_le_dec z base) as [Hlt|Hge]; [apply Hsmall; lia|].
  apply Hbig; [exact Hge|]. apply IH.
  - split; [apply Z.div_pos; lia | apply Z.div_lt; lia].
  - apply Z.div_pos; lia.
Qed.

Lemma digits_digit (z : Z) : 0 <= z -> Forall (digit base) (Py.digits base z).
Proof.
  revert z. apply digits_ind; intros z Hz.
  - rewrite digits_unfold by lia.
    destruct (Z.ltb_spec z base); [|lia]. repeat constructor; lia.
  - intros IH. rewrite digits_unfold by lia.
    destruct (Z.ltb_spec z base); [lia|].
    apply Forall_app. split; [exact IH|].
    repeat constructor; apply Z.mod_pos_bound; lia.
Qed.

Lemma digits_head (z : Z) :
  0 <= z -> exists d ds, Py.digits base z = d :: ds /\ digit base d.
Proof.
  intros Hz. pose proof (digits_digit z Hz) as HF.
  destruct (Py.digits base z) as [|d ds] eqn:E.
  - rewrite digits_unfold in E by exact Hz.
    destruct (z <? base); [discriminate|].
    destruct (Py.digits base (z / base)); discriminate.
  - exists d, ds. split; [reflexivity|]. now inversion HF.
Qed.

(** Read back in the base they were written in, the digits give the
    number. *)
Lemma horner_digits (z : Z) : 0 <= z -> horner base (Py.digits base z) 0 = z.
Proof.
  revert z. apply digits_ind; intros z Hz.
  - rewrite digits_unfold by lia.
    destruct (Z.ltb_spec z base); [|lia]. reflexivity.
  - intros IH. rewrite digits_unfold by lia.
    destruct (Z.ltb_spec z base); [lia|].
    unfold horner in *. rewrite fold_left_app, IH. cbn [fold_left].
    pose proof (Z.div_mod z base ltac:(lia)). lia.
Qed.

(** A number below [base ^ w] has at most [w] digits, and conversely;
    [0] is written with one digit. *)
Lemma digits_length (z w : Z) :
  1 <= z -> 0 <= w ->
  (z < base ^ w <-> Z.of_nat (List.length (Py.digits base z)) <= w).
Proof.
  intros Hz. assert (H0 : 0 <= z) by lia. revert z H0 Hz w.
  apply (digits_ind (fun z => 1 <= z -> forall w, 0 <= w ->
    (z < base ^ w <-> Z.of_nat (List.length (Py.digits base z)) <= w)));
    intros z Hz.
  - intros H1 w Hw. rewrite digits_unfold by lia.
    destruct (Z.ltb_spec z base); [|lia]. cbn [List.length].
    destruct (Z.eq_dec w 0) as [->|Hne].
    + change (base ^ 0) with 1. lia.
    + assert (base ^ 1 <= base ^ w) by (apply Z.pow_le_mono_r; lia).
      rewrite Z.pow_1_r in *. lia.
  - intros IH _ w Hw. rewrite digits_unfold by lia.
    destruct (Z.ltb_spec z base); [lia|].
    rewrite length_app. cbn [List.length].
    assert (Hq1 : 1 <= z / base) by (apply Z.div_le_lower_bound; lia).
    destruct (Z.eq_dec w 0) as [->|Hne].
    + change (base ^ 0) with 1. lia.
    + specialize (IH Hq1 (w - 1) ltac:(lia)).
      replace w with (Z.succ (w - 1)) at 1 by lia.
      rewrite Z.pow_succ_r by lia.
      pose proof (Z.div_mod z base ltac:(lia)).
      pose proof (Z.mod_pos_bound z base ltac:(lia)).
      split; intros Hlt.
      * assert (z / base < base ^ (w - 1)).
        { apply Z.div_lt_upper_bound; lia. }
        lia.
      * assert (z / base < base ^ (w - 1)) by (apply IH; lia). nia.
Qed.

End Digits.

(** ** Characters of digits *)

Section DigitChars.

Lemma below_16 (d : Z) :
  0 <= d < 16 ->
  d = 0 \/ d = 1 \/ d = 2 \/ d = 3 \/ d = 4 \/ d = 5 \/ d = 6 \/ d = 7 \/
  d = 8 \/ d = 9 \/ d = 10 \/ d = 11 \/ d = 12 \/ d = 13 \/ d = 14 \/ d = 15.
Proof. lia. Qed.

Ltac each_digit d H :=
  apply below_16 in H;
  repeat (destruct H as [H|H]; [subst d|]); try subst d.

Lemma digit_val_char (b d : Z) :
  0 <= d < 16 -> d < b -> Py.digit_val b (Py.digit_char d) = Some d.
Proof.
  intros H Hb.
  assert (E : Py.digit_val 16 (Py.digit_char d) = Some d)
    by (each_digit d H; reflexivity).
  unfold Py.digit_val in *.
  destruct (if _ : bool then _ else _) as [v|]; [|discriminate].
  destruct (v <? 16); [|discriminate]. injection E as ->.
  destruct (Z.ltb_spec d b); [reflexivity | lia].
Qed.

Lemma parse_digits_chars (b : Z) (ds : list Z) (acc : Z) :
  Forall (fun d => 0 <= d < 16 /\ d < b) ds ->
  Py.parse_digits b acc (map Py.digit_char ds) = Ok (horner b ds acc).
Proof.
  revert acc. induction ds as [|d ds IH]; intros acc HF; [reflexivity|].
  inversion HF as [|? ? [Hd Hb] HF']; subst.
  cbn [map Py.parse_digits]. rewrite digit_val_char by assumption.
  apply IH, HF'.
Qed.

Lemma int_of_str_chars (b d : Z) (s : Py.str) :
  0 <= d < 16 ->
  Py.int_of_str b (Py.digit_char d :: s)
  = Py.parse_digits b 0 (Py.digit_char d :: s).
Proof. intros H. each_digit d H; reflexivity. Qed.

(** [int(c)] of the character of a decimal digit is the digit. *)
Lemma int_of_digit_char (d : Z) :
  0 <= d < 10 -> Py.int_of_str 10 [Py.digit_char d] = Ok d.
Proof.
  intros H. rewrite int_of_str_chars by lia.
  change [Py.digit_char d] with (map Py.digit_char [d]).
  rewrite parse_digits_chars; [unfold horner; cbn [fold_left]; f_equal; lia|].
  repeat constructor; lia.
Qed.

(** [str(d)] of a decimal digit is its one character. *)
Lemma str_of_digit (d : Z) :
  0 <= d < 10 -> Py.str_of_int d = [Py.digit_char d].
Proof.
  intros H. unfold Py.str_of_int, Py.show.
  destruct (Z.ltb_spec d 0); [lia|].
  rewrite digits_unfold by lia.
  destruct (Z.ltb_spec d 10); [reflexivity | lia].
Qed.

(** [str(d)] of a number from 10 to 99 is two characters. *)
Lemma str_of_two_digits (d : Z) :
  10 <= d < 100 ->
  Py.str_of_int d = [Py.digit_char (d / 10); Py.digit_char (d mod 10)].
Proof.
  intros H. unfold Py.str_of_int, Py.show.
  destruct (Z.ltb_spec d 0); [lia|].
  rewrite digits_unfold by lia.
  destruct (Z.ltb_spec d 10); [lia|].
  assert (0 <= d / 10 < 10).
  { split; [apply Z.div_pos; lia | apply Z.div_lt_upper_bound; lia]. }
  rewrite digits_unfold by lia.
  destruct (Z.ltb_spec (d / 10) 10); [reflexivity | lia].
Qed.

Lemma str_of_int_digits (z : Z) :
  0 <= z -> Py.str_of_int z = map Py.digit_char (Py.digits 10 z).
Proof.
  intros H. unfold Py.str_of_int, Py.show.
  destruct (Z.ltb_spec z 0); [lia | reflexivity].
Qed.

End DigitChars.

(** ** Byte strings *)

Section Bytes.

Lemma le_bytes_length (n : nat) (z : Z) : List.length (Py.le_bytes n z) = n.
Proof. revert z. induction n; intros z; cbn; [reflexivity | now rewrite IHn]. Qed.

Lemma le_bytes_byte (n : nat) (z : Z) : Forall byte (Py.le_bytes n z).
Proof.
  revert z. induction n as [|n IH]; intros z; cbn [Py.le_bytes];
    constructor; [apply Z.mod_pos_bound; lia | apply IH].
Qed.

Lemma le_bytes_value (n : nat) (z : Z) :
  0 <= z < 256 ^ Z.of_nat n ->
  fold_right (fun b acc => acc * 256 + b) 0 (Py.le_bytes n z) = z.
Proof.
  revert z. induction n as [|n IH]; intros z Hz.
  - change (256 ^ Z.of_nat 0) with 1 in Hz. cbn. lia.
  - cbn [Py.le_bytes fold_right].
    rewrite Nat2Z.inj_succ, Z.pow_succ_r in Hz by lia.
    rewrite IH.
    + pose proof (Z.div_mod z 256 ltac:(lia)). lia.
    + split; [apply Z.div_pos; lia | apply Z.div_lt_upper_bound; lia].
Qed.

Lemma be_value_rev (l : list Z) :
  Spec.be_value (rev l) = fold_right (fun b acc => acc * 256 + b) 0 l.
Proof. unfold Spec.be_value. now rewrite <- fold_left_rev_right, rev_involutive. Qed.

Lemma to_bytes_fits (z len : Z) (bo : Py.byteorder) :
  0 <= len -> 0 <= z < 256 ^ len ->
  Py.to_bytes z len bo
  = Ok (match bo with
        | Py.little => Py.le_bytes (Z.to_nat len) z
        | Py.big => rev (Py.le_bytes (Z.to_nat len) z)
        end).
Proof.
  intros Hl [H0 H1]. unfold Py.to_bytes.
  destruct (Z.ltb_spec len 0); [lia|].
  destruct (Z.ltb_spec z 0); [lia|].
  destruct (Z.leb_spec (256 ^ len) z); [lia | reflexivity].
Qed.

Lemma to_bytes_too_big (z len : Z) (bo : Py.byteorder) :
  0 <= len -> 256 ^ len <= z -> Py.to_bytes z len bo = Raise OverflowError.
Proof.
  intros Hl Hz. unfold Py.to_bytes.
  destruct (Z.ltb_spec len 0); [lia|].
  destruct (Z.ltb_spec z 0); [reflexivity|].
  destruct (Z.leb_spec (256 ^ len) z); [reflexivity | lia].
Qed.

Lemma to_bytes_negative (z len : Z) (bo : Py.byteorder) :
  0 <= len -> z < 0 -> Py.to_bytes z len bo = Raise OverflowError.
Proof.
  intros Hl Hz. unfold Py.to_bytes.
  destruct (Z.ltb_spec len 0); [lia|].
  destruct (Z.ltb_spec z 0); [reflexivity | lia].
Qed.

End Bytes.

(** ** The packed-decimal codec *)

Section Codec.

Lemma magnitude_step (z : Z) :
  0 <= z -> Spec.magnitude z = 16 * Spec.magnitude (z / 10) + z mod 10.
Proof.
  intros Hz. unfold Spec.magnitude.
  rewrite (digits_unfold 10 ltac:(lia) z Hz).
  destruct (Z.ltb_spec z 10).
  - rewrite Z.div_small, Z.mod_small by lia.
    change (Py.digits 10 0) with [0]. cbn [fold_left]. lia.
  - rewrite fold_left_app. cbn [fold_left]. lia.
Qed.

Lemma magnitude_ge (z : Z) : 0 <= z -> z <= Spec.magnitude z.
Proof.
  revert z. apply (digits_ind 10 ltac:(lia)); intros z Hz.
  - rewrite magnitude_step by lia.
    rewrite Z.div_small, Z.mod_small by lia.
    change (Spec.magnitude 0) with 0. lia.
  - intros IH. rewrite magnitude_step by lia.
    pose proof (Z.div_mod z 10 ltac:(lia)).
    assert (0 <= z / 10) by (apply Z.div_pos; lia). lia.
Qed.

(** The magnitude fits in [w] hexadecimal digits exactly when the value
    fits in [w] decimal digits. *)
Lemma magnitude_fits (z : Z) :
  0 <= z -> forall w, 0 <= w -> (Spec.magnitude z < 16 ^ w <-> z < 10 ^ w).
Proof.
  revert z. apply (digits_ind 10 ltac:(lia)
    (fun z => forall w, 0 <= w -> (Spec.magnitude z < 16 ^ w <-> z < 10 ^ w)));
    intros z Hz.
  - intros w Hw. rewrite magnitude_step by lia.
    rewrite Z.div_small, Z.mod_small by lia.
    change (Spec.magnitude 0) with 0.
    destruct (Z.eq_dec w 0) as [->|Hne]; [rewrite !Z.pow_0_r; lia|].
    assert (16 ^ 1 <= 16 ^ w) by (apply Z.pow_le_mono_r; lia).
    assert (10 ^ 1 <= 10 ^ w) by (apply Z.pow_le_mono_r; lia).
    rewrite Z.pow_1_r in *. lia.
  - intros IH w Hw.
    pose proof (magnitude_ge z ltac:(lia)) as Hge.
    destruct (Z.eq_dec w 0) as [->|Hne]; [rewrite !Z.pow_0_r; lia|].
    specialize (IH (w - 1) ltac:(lia)).
    rewrite magnitude_step by lia.
    replace w with (Z.succ (w - 1)) by lia.
    rewrite !Z.pow_succ_r by lia.
    pose proof (Z.div_mod z 10 ltac:(lia)).
    pose proof (Z.mod_pos_bound z 10 ltac:(lia)).
    split; intros Hlt.
    + assert (z / 10 < 10 ^ (w - 1)) by (apply IH; lia). lia.
    + assert (z / 10 < 10 ^ (w - 1)).
      { apply Z.div_lt_upper_bound; lia. }
      assert (Spec.magnitude (z / 10) < 16 ^ (w - 1)) by (apply IH; lia).
      lia.
Qed.

Lemma magnitude_fits_bytes (z w : Z) :
  0 <= z -> 0 <= w -> (Spec.magnitude z < 256 ^ w <-> z < 10 ^ (2 * w)).
Proof.
  intros Hz Hw. change 256 with (16 ^ 2).
  rewrite <- Z.pow_mul_r by lia. apply magnitude_fits; lia.
Qed.

(** [int(str(z), 16)] *)
Lemma int_of_str_magnitude (z : Z) :
  0 <= z -> Py.int_of_str 16 (Py.str_of_int z) = Ok (Spec.magnitude z).
Proof.
  intros Hz. rewrite str_of_int_digits by exact Hz.
  pose proof (digits_digit 10 ltac:(lia) z Hz) as HF.
  destruct (digits_head 10 ltac:(lia) z Hz) as (d & ds & E & Hd).
  unfold digit in Hd. rewrite E. cbn [map].
  rewrite int_of_str_chars by lia.
  change (Py.digit_char d :: map Py.digit_char ds)
    with (map Py.digit_char (d :: ds)).
  rewrite <- E. apply parse_digits_chars.
  revert HF. apply Forall_impl. unfold digit. lia.
Qed.

Lemma int_to_bcd_fits (i w : Z) :
  0 <= i -> 0 <= w -> i < 10 ^ (2 * w) ->
  int_to_bcd i w = Ok (rev (Py.le_bytes (Z.to_nat w) (Spec.magnitude i))).
Proof.
  intros Hi Hw Hlt. unfold int_to_bcd.
  destruct (Z.ltb_spec i 0); [lia|]. destruct (Z.ltb_spec w 0); [lia|].
  rewrite int_of_str_magnitude by exact Hi. cbn [bind].
  apply (to_bytes_fits _ _ Py.big Hw).
  pose proof (magnitude_ge i Hi). split; [lia|].
  apply magnitude_fits_bytes; assumption.
Qed.

Lemma int_to_bcd_overflow (i w : Z) :
  0 <= i -> 0 <= w -> 10 ^ (2 * w) <= i ->
  int_to_bcd i w = Raise OverflowError.
Proof.
  intros Hi Hw Hge. unfold int_to_bcd.
  destruct (Z.ltb_spec i 0); [lia|]. destruct (Z.ltb_spec w 0); [lia|].
  rewrite int_of_str_magnitude by exact Hi. cbn [bind].
  apply to_bytes_too_big; [exact Hw|].
  pose proof (magnitude_fits_bytes i w Hi Hw). lia.
Qed.

Lemma int_to_bcd_invalid (i w : Z) :
  i < 0 \/ w < 0 -> int_to_bcd i w = Raise ValueError.
Proof.
  intros H. unfold int_to_bcd.
  destruct (Z.ltb_spec i 0); [reflexivity|].
  destruct (Z.ltb_spec w 0); [reflexivity | lia].
Qed.

(** Two decimal digits to a byte: the bytes of the magnitude, least
    significant first. *)
Lemma le_bytes_magnitude (n : nat) (z : Z) :
  0 <= z ->
  Py.le_bytes n (Spec.magnitude z)
  = map (fun j => let i := Z.of_nat j in
                  16 * ((z / 10 ^ (2 * i + 1)) mod 10)
                  + (z / 10 ^ (2 * i)) mod 10)
        (seq 0 n).
Proof.
  revert z. induction n as [|n IH]; intros z Hz; [reflexivity|].
  cbn [Py.le_bytes seq map]. cbv zeta.
  assert (Hq : 0 <= z / 10) by (apply Z.div_pos; lia).
  assert (Hm : Spec.magnitude z
               = 256 * Spec.magnitude (z / 100)
                 + (16 * ((z / 10) mod 10) + z mod 10)).
  { rewrite (magnitude_step z Hz), (magnitude_step (z / 10) Hq).
    rewrite Z.div_div by lia. change (10 * 10) with 100. lia. }
  pose proof (Z.mod_pos_bound z 10 ltac:(lia)).
  pose proof (Z.mod_pos_bound (z / 10) 10 ltac:(lia)).
  f_equal.
  - change (2 * Z.of_nat 0 + 1) with 1. change (2 * Z.of_nat 0) with 0.
    rewrite Z.pow_1_r, Z.pow_0_r, Z.div_1_r.
    symmetry. apply Z.mod_unique_pos with (q := Spec.magnitude (z / 100));
      [lia | exact Hm].
  - replace (Spec.magnitude z / 256) with (Spec.magnitude (z / 100)).
    2:{ apply Z.div_unique_pos
          with (r := 16 * ((z / 10) mod 10) + z mod 10); [lia | exact Hm]. }
    rewrite IH by (apply Z.div_pos; lia).
    rewrite <- seq_shift, map_map. apply map_ext. intros j. cbv zeta.
    rewrite !Z.div_div by (try apply Z.pow_pos_nonneg; lia).
    rewrite Nat2Z.inj_succ.
    replace (2 * Z.succ (Z.of_nat j) + 1) with (2 + (2 * Z.of_nat j + 1)) by lia.
    replace (2 * Z.succ (Z.of_nat j)) with (2 + 2 * Z.of_nat j) by lia.
    rewrite !(Z.pow_add_r 10 2) by lia. reflexivity.
Qed.

End Codec.

Section Packed.

Lemma rev_map_seq {A} (f : nat -> A) (n : nat) :
  rev (map f (seq 0 n)) = map (fun k => f (n - 1 - k)%nat) (seq 0 n).
Proof.
  induction n as [|n IH]; [reflexivity|].
  rewrite seq_S at 1. rewrite map_app, rev_app_distr. cbn [map rev app plus].
  rewrite IH. cbn [seq map]. f_equal; [f_equal; lia|].
  rewrite <- seq_shift, map_map. apply map_ext_in. intros k Hk.
  f_equal. lia.
Qed.

(** What a successful [int_to_bcd] returns: the decimal digits of the
    value, padded with zeros on the left, two to a byte. *)
Lemma int_to_bcd_packed (i w : Z) :
  0 <= i -> 0 <= w -> i < 10 ^ (2 * w) ->
  int_to_bcd i w = Ok (Spec.packed (Z.to_nat w) i).
Proof.
  intros Hi Hw Hlt. rewrite int_to_bcd_fits by assumption. f_equal.
  rewrite le_bytes_magnitude by exact Hi. apply rev_map_seq.
Qed.

Lemma packed_length (n : nat) (z : Z) : List.length (Spec.packed n z) = n.
Proof. unfold Spec.packed. now rewrite length_map, length_seq. Qed.

Lemma packed_value (n : nat) (z : Z) :
  0 <= z < 10 ^ (2 * Z.of_nat n) ->
  Spec.be_value (Spec.packed n z) = Spec.magnitude z
  /\ Forall byte (Spec.packed n z).
Proof.
  intros [H0 H1]. unfold Spec.packed.
  rewrite <- (rev_map_seq (fun j => let i := Z.of_nat j in
                  16 * ((z / 10 ^ (2 * i + 1)) mod 10)
                  + (z / 10 ^ (2 * i)) mod 10)).
  rewrite <- le_bytes_magnitude by exact H0. split.
  - rewrite be_value_rev. apply le_bytes_value.
    pose proof (magnitude_ge z H0). split; [lia|].
    apply magnitude_fits_bytes; lia.
  - apply Forall_rev, le_bytes_byte.
Qed.

Lemma format_x_hex2 (b : Z) : 16 <= b < 256 -> Py.format_x b = Spec.hex2 b.
Proof.
  intros H. unfold Py.format_x, Py.show, Spec.hex2.
  destruct (Z.ltb_spec b 0); [lia|].
  rewrite (digits_unfold 16) by lia. destruct (Z.ltb_spec b 16); [lia|].
  assert (0 <= b / 16 < 16).
  { split; [apply Z.div_pos; lia | apply Z.div_lt_upper_bound; lia]. }
  rewrite (digits_unfold 16) by lia.
  destruct (Z.ltb_spec (b / 16) 16); [reflexivity | lia].
Qed.

(** A byte below [0x10] is printed as one character. *)
Lemma format_x_one_char (b : Z) :
  0 <= b < 16 -> Py.format_x b = [Py.digit_char b].
Proof.
  intros H. unfold Py.format_x, Py.show.
  destruct (Z.ltb_spec b 0); [lia|].
  rewrite (digits_unfold 16) by lia.
  destruct (Z.ltb_spec b 16); [reflexivity | lia].
Qed.

(** Where every byte has two hexadecimal digits, [bcd_to_int] is the
    decoder of the specification. *)
Lemma bcd_to_int_two_chars (x : list Z) :
  Forall (fun b => 16 <= b < 256) x -> bcd_to_int x = Spec.decode x.
Proof.
  intros HF. unfold bcd_to_int, Spec.decode. cbv zeta. f_equal.
  assert (H : forall acc,
             fold_left (fun s i => s ++ Py.format_x i) x acc
             = acc ++ List.concat (map Spec.hex2 x)).
  { induction HF as [|b x Hb _ IH]; intros acc; cbn [fold_left map List.concat].
    - now rewrite app_nil_r.
    - rewrite IH, format_x_hex2 by exact Hb. now rewrite app_assoc. }
  apply (H []).
Qed.

End Packed.

(** C7 (as amended): [int_to_bcd] raises [ValueError], the
    specification's InvalidArgument, when the value or the width is
    negative.  For a value and a width that are not negative, the value
    having at most 4300 decimal digits (so that [str(i)] is within the
    interpreter's limit), a magnitude (the decimal digits of the value
    read in base 16) that does not fit in [width] bytes raises
    [OverflowError], the specification's Overflow; every other such input
    returns [width] bytes, each below 256, whose big-endian value is the
    magnitude. *)
Theorem int_to_bcd_errors (i w : Z) :
  (i < 0 \/ w < 0 -> int_to_bcd i w = Raise ValueError)
  /\ (0 <= i -> i < 10 ^ max_str_digits -> 0 <= w ->
      256 ^ w <= Spec.magnitude i ->
      int_to_bcd i w = Raise OverflowError)
  /\ (0 <= i -> i < 10 ^ max_str_digits -> 0 <= w ->
      Spec.magnitude i < 256 ^ w ->
      exists bs, int_to_bcd i w = Ok bs
                 /\ Z.of_nat (List.length bs) = w
                 /\ Forall (fun b => 0 <= b < 256) bs
                 /\ Spec.be_value bs = Spec.magnitude i).
Proof.
  split; [apply int_to_bcd_invalid | split].
  - intros Hi _ Hw Hge. apply int_to_bcd_overflow; try assumption.
    pose proof (magnitude_fits_bytes i w Hi Hw). lia.
  - intros Hi _ Hw Hlt.
    assert (Hd : i < 10 ^ (2 * w)) by (apply magnitude_fits_bytes; assumption).
    exists (Spec.packed (Z.to_nat w) i).
    split; [apply int_to_bcd_packed; assumption | split].
    + rewrite packed_length. lia.
    + rewrite <- and_comm. apply packed_value. rewrite Z2Nat.id by lia. lia.
Qed.

Lemma int_to_bcd_errors_witness :
  int_to_bcd (-3) 2 = Raise ValueError
  /\ int_to_bcd 3 (-2) = Raise ValueError
  /\ int_to_bcd 1000 1 = Raise OverflowError
  /\ exists bs, int_to_bcd 1234 2 = Ok bs
                /\ Z.of_nat (List.length bs) = 2
                /\ Forall (fun b => 0 <= b < 256) bs
                /\ Spec.be_value bs = Spec.magnitude 1234.
Proof.
  split; [|split; [|split]].
  - apply (int_to_bcd_errors (-3) 2). left. lia.
  - apply (int_to_bcd_errors 3 (-2)). right. lia.
  - apply (int_to_bcd_errors 1000 1);
      [lia | reflexivity | lia | vm_compute; discriminate].
  - apply (int_to_bcd_errors 1234 2); [lia | reflexivity | lia | reflexivity].
Defined.

(** C7, the claim as stated fails: 100 and width 1 are not negative, the
    magnitude [0x100] does not fit in one byte, and the error raised is
    [OverflowError], not [ValueError]. *)
Lemma int_to_bcd_overflow_not_invalid :
  0 <= 100 /\ 0 <= 1 /\ 256 ^ 1 <= Spec.magnitude 100
  /\ int_to_bcd 100 1 = Raise OverflowError
  /\ int_to_bcd 100 1 <> Raise ValueError.
Proof.
  split; [lia | split; [lia | split; [|split]]].
  - vm_compute. discriminate.
  - reflexivity.
  - discriminate.
Qed.

(** C6 (as amended): for a meter whose value and size are not negative,
    the value having at most 4300 decimal digits (so that [str] of it is
    within the interpreter's limit),
    [bytes(self)] returns the [size] bytes that pack the decimal digits of
    the value two to a byte when the value is below [10 ^ (2 * size)], and
    raises [OverflowError] otherwise; for a value of at least 1 that is
    exactly when the value has more than [2 * size] decimal digits.  With
    a negative size it raises [ValueError].  An increment never fails: one
    that takes the value past the width goes through, and the error
    comes when the meter is serialized. *)
Theorem meter_bytes (m : SASMeter) :
  0 <= Meter.value m -> Meter.value m < 10 ^ max_str_digits ->
  (size m < 0 -> Meter.__bytes__ m = Raise ValueError)
  /\ (0 <= size m -> Meter.value m < 10 ^ (2 * size m) ->
      Meter.__bytes__ m
      = Ok (Spec.packed (Z.to_nat (size m)) (Meter.value m))
      /\ Z.of_nat (List.length (Spec.packed (Z.to_nat (size m)) (Meter.value m)))
         = size m
      /\ Spec.be_value (Spec.packed (Z.to_nat (size m)) (Meter.value m))
         = Spec.magnitude (Meter.value m))
  /\ (0 <= size m -> 10 ^ (2 * size m) <= Meter.value m ->
      Meter.__bytes__ m = Raise OverflowError)
  /\ (0 <= size m -> 1 <= Meter.value m ->
      (2 * size m < Z.of_nat (List.length (Py.str_of_int (Meter.value m)))
       <-> Meter.__bytes__ m = Raise OverflowError))
  /\ (forall n, 0 <= size m -> 0 < n ->
      10 ^ (2 * size m) <= Meter.value m + n ->
      Meter.value m + n < 10 ^ max_str_digits ->
      Meter.value (Meter.__iadd__ m n) = Meter.value m + n
      /\ Meter.__bytes__ (Meter.__iadd__ m n) = Raise OverflowError).
Proof.
  intros Hv _. unfold Meter.__bytes__.
  split; [|split; [|split; [|split]]].
  - intros Hs. apply int_to_bcd_invalid. now right.
  - intros Hs Hlt. split; [apply int_to_bcd_packed; assumption | split].
    + rewrite packed_length. lia.
    + apply packed_value. rewrite Z2Nat.id by lia. lia.
  - intros Hs Hge. apply int_to_bcd_overflow; assumption.
  - intros Hs H1.
    rewrite str_of_int_digits, length_map by exact Hv.
    pose proof (digits_length 10 ltac:(lia) (Meter.value m) (2 * size m)
                  ltac:(lia) ltac:(lia)) as Hd.
    split.
    + intros Hlen. apply int_to_bcd_overflow; lia.
    + intros Hr.
      destruct (Z_lt_le_dec (Meter.value m) (10 ^ (2 * size m))) as [Hlt|Hge];
        [|lia].
      rewrite int_to_bcd_packed in Hr by assumption. discriminate.
  - intros n Hs Hn Hge _.
    assert (Hval : Meter.value (Meter.__iadd__ m n) = Meter.value m + n)
      by (rewrite value_iadd; lia).
    split; [exact Hval|]. rewrite Hval.
    apply int_to_bcd_overflow; [lia | exact Hs | exact Hge].
Qed.

Lemma meter_bytes_witness :
  Meter.__bytes__ (Meter.set_value (Meter.__init__ 0 4) 12345678)
  = Ok (Spec.packed 4 12345678)
  /\ Meter.__bytes__ (Meter.set_value (Meter.__init__ 0 2) 12345)
     = Raise OverflowError
  /\ Meter.__bytes__ (Meter.__init__ 0 (-1)) = Raise ValueError
  /\ Meter.__bytes__ (Meter.__iadd__ (Meter.set_value (Meter.__init__ 0 1) 99) 1)
     = Raise OverflowError.
Proof.
  split; [|split; [|split]].
  - destruct (meter_bytes (Meter.set_value (Meter.__init__ 0 4) 12345678))
      as (_ & Hfit & _); [cbn; lia | reflexivity |].
    apply Hfit; [cbn; lia | reflexivity].
  - destruct (meter_bytes (Meter.set_value (Meter.__init__ 0 2) 12345))
      as (_ & _ & Hover & _); [cbn; lia | reflexivity |].
    apply Hover; [cbn; lia | vm_compute; discriminate].
  - destruct (meter_bytes (Meter.__init__ 0 (-1))) as (Hneg & _);
      [cbn; lia | reflexivity |].
    apply Hneg. reflexivity.
  - destruct (meter_bytes (Meter.set_value (Meter.__init__ 0 1) 99))
      as (_ & _ & _ & _ & Hadd); [cbn; lia | reflexivity |].
    apply Hadd; [cbn; lia | lia | vm_compute; discriminate | reflexivity].
Defined.

(** C6, the claim as stated fails: a meter of size 0 holds the value 0,
    whose decimal string has one digit, more than [size * 2 = 0]; yet
    [bytes(self)] returns the empty byte string and raises nothing. *)
Lemma meter_bytes_size_0 :
  size (Meter.__init__ 0 0) * 2
  < Z.of_nat (List.length (Py.str_of_int (Meter.value (Meter.__init__ 0 0))))
  /\ Meter.__bytes__ (Meter.__init__ 0 0) = Ok []
  /\ Meter.__bytes__ (Meter.__init__ 0 0) <> Raise OverflowError.
Proof.
  split; [reflexivity | split; [reflexivity | discriminate]].
Qed.

(** C8: [int_to_bcd 12 1] is the byte [0x12] and [bcd_to_int] of that byte
    is 18, not 12.  But [bcd_to_int] prints a byte below [0x10] as one
    hexadecimal character, not two: on the bytes [0x01 0x05] it reads
    ["15"] and returns 21, where two characters a byte read ["0105"],
    that is 261. *)
Theorem bcd_to_int_drops_leading_zero :
  int_to_bcd 12 1 = Ok [0x12]
  /\ bcd_to_int [0x12] = Ok 18
  /\ Spec.decode [0x12] = Ok 18
  /\ bcd_to_int [0x01; 0x05] = Ok 21
  /\ Spec.decode [0x01; 0x05] = Ok 261.
Proof. repeat split. Qed.

(** ** The validation number *)

Section ValidationNumber.

Import Game.

Lemma to_bytes_3_little (z : Z) :
  counter z -> Py.to_bytes z 3 Py.little = Ok (Spec.le3 z).
Proof.
  intros [H0 H1]. rewrite to_bytes_fits; [|lia|].
  - change (Z.to_nat 3) with 3%nat. cbn [Py.le_bytes]. unfold Spec.le3.
    rewrite Z.div_div by lia. reflexivity.
  - change (256 ^ 3) with (2 ^ 24). lia.
Qed.

Lemma to_bytes_3_out_of_range (z : Z) (bo : Py.byteorder) :
  z < 0 \/ 2 ^ 24 <= z -> Py.to_bytes z 3 bo = Raise OverflowError.
Proof.
  intros [H|H].
  - apply to_bytes_negative; lia.
  - apply to_bytes_too_big; [lia | exact H].
Qed.

Lemma sum_total (l : list Z) : Py.sum l = Spec.total l.
Proof.
  unfold Py.sum, Spec.total.
  assert (H : forall a, fold_left Z.add l a = a + fold_right Z.add 0 l).
  { induction l as [|x l IH]; intros a; cbn [fold_left fold_right]; [lia|].
    rewrite IH. lia. }
  now rewrite H.
Qed.

Lemma mapM_app {A B} (f : A -> result B) (l1 l2 : list A) (r1 r2 : list B) :
  mapM f l1 = Ok r1 -> mapM f l2 = Ok r2 -> mapM f (l1 ++ l2) = Ok (r1 ++ r2).
Proof.
  revert r1. induction l1 as [|x l1 IH]; intros r1 H1 H2.
  - injection H1 as <-. exact H2.
  - cbn [app mapM] in *. destruct (f x) as [y|e]; [|discriminate].
    cbn [bind] in *. destruct (mapM f l1) as [ys|e]; [|discriminate].
    cbn [bind] in *. injection H1 as <-.
    rewrite (IH ys eq_refl H2). reflexivity.
Qed.

Lemma mapM_int_chars (ds : list Z) :
  Forall decimal ds ->
  mapM (fun x => Py.int_of_str 10 [x]) (map Py.digit_char ds) = Ok ds.
Proof.
  induction 1 as [|d ds Hd _ IH]; [reflexivity|].
  cbn [map mapM]. rewrite int_of_digit_char by exact Hd.
  cbn [bind]. rewrite IH. reflexivity.
Qed.

(** The digits of a number below [10 ^ k], zero-padded to [k] places,
    are its [k] decimal places. *)
Lemma padded_digits (k : nat) :
  forall n, 0 <= n < 10 ^ Z.of_nat (S k) ->
    repeat 0 (S k - List.length (Py.digits 10 n)) ++ Py.digits 10 n
    = rev (map (fun j => (n / 10 ^ Z.of_nat j) mod 10) (seq 0 (S k))).
Proof.
  induction k as [|k IH]; intros n Hn.
  - change (10 ^ Z.of_nat 1) with 10 in Hn.
    rewrite digits_unfold by lia. destruct (Z.ltb_spec n 10); [|lia].
    cbn [List.length Nat.sub repeat app seq map rev Z.of_nat].
    rewrite Z.pow_0_r, Z.div_1_r, Z.mod_small by lia. reflexivity.
  - rewrite Nat2Z.inj_succ, Z.pow_succ_r in Hn by lia.
    assert (Hq : 0 <= n / 10 < 10 ^ Z.of_nat (S k)).
    { split; [apply Z.div_pos; lia | apply Z.div_lt_upper_bound; lia]. }
    assert (E : rev (map (fun j => (n / 10 ^ Z.of_nat j) mod 10)
                      (seq 0 (S (S k))))
                = rev (map (fun j => (n / 10 / 10 ^ Z.of_nat j) mod 10)
                        (seq 0 (S k))) ++ [n mod 10]).
    { change (seq 0 (S (S k))) with (0%nat :: seq 1 (S k)).
      cbn [map rev]. change (Z.of_nat 0) with 0.
      rewrite Z.pow_0_r, Z.div_1_r. f_equal. f_equal.
      rewrite <- seq_shift, map_map. apply map_ext. intros j.
      rewrite Nat2Z.inj_succ, Z.pow_succ_r by lia.
      rewrite Z.div_div by (try apply Z.pow_pos_nonneg; lia). reflexivity. }
    rewrite E, <- (IH (n / 10) Hq). clear E.
    rewrite (digits_unfold 10 ltac:(lia) n) by lia.
    destruct (Z.ltb_spec n 10) as [Hs|Hb].
    + rewrite Z.div_small by lia. change (Py.digits 10 0) with [0].
      cbn [List.length]. replace (S (S k) - 1)%nat with (S k) by lia.
      replace (S k - 1)%nat with k by lia.
      rewrite Z.mod_small by lia.
      change [0] with (repeat 0 1). rewrite <- repeat_app.
      replace (k + 1)%nat with (S k) by lia. reflexivity.
    + rewrite length_app. cbn [List.length].
      replace (S (S k) - (List.length (Py.digits 10 (n / 10)) + 1))%nat
        with (S k - List.length (Py.digits 10 (n / 10)))%nat by lia.
      now rewrite app_assoc.
Qed.

Lemma dec8_decimal (n : Z) : Forall decimal (Spec.dec8 n).
Proof.
  unfold Spec.dec8. cbn [map].
  repeat constructor; apply Z.mod_pos_bound; lia.
Qed.

(** ['%08i' % n], character by character, for [n] of at most eight
    digits. *)
Lemma fmt_08i_dec8 (n : Z) :
  0 <= n < 10 ^ 8 -> Py.fmt_08i n = map Py.digit_char (Spec.dec8 n).
Proof.
  intros Hn. unfold Py.fmt_08i. destruct (Z.ltb_spec n 0); [lia|].
  unfold Py.rjust0. rewrite length_map.
  change (repeat "0"%char ?k) with (repeat (Py.digit_char 0) k).
  rewrite <- map_repeat, <- map_app. f_equal.
  exact (padded_digits 7 n Hn).
Qed.


Lemma accumulate_word16 (b : list Z) : word16 (Spec.accumulate b 0).
Proof.
  rewrite <- crc_loop_accumulate. apply crc_loop_word16.
  unfold word16. lia.
Qed.

Lemma checksum_bytes (b : list Z) :
  exists lo hi, Spec.checksum b 0 = [lo; hi] /\ byte lo /\ byte hi.
Proof.
  destruct (accumulate_word16 b) as [H0 H1].
  change (2 ^ 16) with 65536 in H1.
  exists (Z.land (Spec.accumulate b 0) 0xFF), (Z.shiftr (Spec.accumulate b 0) 8).
  split; [reflexivity|]. unfold byte. split.
  - change 0xFF with (Z.ones 8). rewrite Z.land_ones by lia.
    apply Z.mod_pos_bound. reflexivity.
  - rewrite Z.shiftr_div_pow2 by lia. change (2 ^ 8) with 256.
    split; [apply Z.div_pos; lia | apply Z.div_lt_upper_bound; lia].
Qed.

Lemma combine3_counter (x y z : Z) :
  byte x -> byte y -> byte z -> counter (Spec.combine3 x y z).
Proof.
  unfold byte, counter, Spec.combine3. intros Hx Hy Hz.
  rewrite !Z.shiftl_mul_pow2 by lia.
  change (2 ^ 8) with 256. change (2 ^ 16) with 65536.
  change (2 ^ 24) with 16777216. lia.
Qed.

Lemma numbers_counter (seq id : Z) :
  counter (fst (Spec.numbers seq id)) /\ counter (snd (Spec.numbers seq id)).
Proof.
  unfold Spec.numbers. cbv zeta. unfold Spec.checksums.
  destruct (checksum_bytes (firstn 2 (Spec.scramble (Spec.le3 seq ++ Spec.le3 id))))
    as (c0 & c1 & -> & H0 & H1).
  destruct (checksum_bytes
              (firstn 2 (skipn 2 (Spec.scramble (Spec.le3 seq ++ Spec.le3 id)))))
    as (c2 & c3 & -> & H2 & H3).
  destruct (checksum_bytes
              (firstn 2 (skipn 4 (Spec.scramble (Spec.le3 seq ++ Spec.le3 id)))))
    as (c4 & c5 & -> & H4 & H5).
  cbn [app nth fst snd]. split; apply combine3_counter; assumption.
Qed.

Lemma crc_checksum (b : list Z) : crc b 0 = Ok (Spec.checksum b 0).
Proof. apply crc_is_checksum. unfold word16. lia. Qed.


Ltac run_lists :=
  cbn [bind Py.getitem Py.setitem nth_error app repeat Py.slice
       Py.slice_to Py.slice_from firstn skipn Nat.sub rev nth
       List.length seq map combine Py.enumerate foldM mapM].

(** Lines 144-153: the scrambled bytes, then the three checksums. *)
Lemma SE_digits_numbers (self : SASGame) :
  counter (_v_seq self) -> counter (_v_id self) ->
  SE_digits self
  = Ok (rev (Spec.dec8 (fst (Spec.numbers (_v_seq self) (_v_id self)))
             ++ Spec.dec8 (snd (Spec.numbers (_v_seq self) (_v_id self))))).
Proof.
  intros Hseq Hid.
  destruct (numbers_counter (_v_seq self) (_v_id self)) as [Hn0 Hn1].
  revert Hn0 Hn1.
  unfold SE_digits, Spec.numbers, Spec.checksums, Spec.scramble. cbv zeta.
  rewrite (to_bytes_3_little _ Hseq), (to_bytes_3_little _ Hid).
  unfold Spec.le3. run_lists. rewrite !crc_checksum. run_lists.
  unfold Spec.checksum. cbv zeta. run_lists. cbn [fst snd].
  cbn [Z.of_nat Pos.of_succ_nat Pos.succ Z.mul Pos.mul].
  rewrite !Z.shiftl_0_r, !Z.add_0_l. unfold Spec.combine3.
  intros Hn0 Hn1.
  erewrite mapM_app; [reflexivity | |];
    (rewrite fmt_08i_dec8 by (unfold counter in *; lia);
     apply mapM_int_chars, dec8_decimal).
Qed.

Lemma SE_inject_inject (v : list Z) :
  List.length v = 16%nat -> SE_inject v = Ok (Spec.inject v).
Proof.
  intros H.
  do 16 (destruct v as [|? v]; [discriminate H|]).
  destruct v; [|discriminate H].
  unfold SE_inject, Spec.inject, Spec.update. cbv zeta. run_lists.
  rewrite !sum_total. reflexivity.
Qed.

Lemma lor_check_leading (d s : Z) :
  0 <= d <= 1 -> decimal (Z.lor d (Z.shiftl (s mod 5) 1)).
Proof.
  intros Hd. pose proof (Z.mod_pos_bound s 5 ltac:(lia)) as Hs.
  unfold decimal.
  assert (Ed : d = 0 \/ d = 1) by lia.
  assert (Es : s mod 5 = 0 \/ s mod 5 = 1 \/ s mod 5 = 2 \/ s mod 5 = 3
               \/ s mod 5 = 4) by lia.
  destruct Ed as [-> | ->];
    destruct Es as [-> | [-> | [-> | [-> | ->]]]]; cbn; lia.
Qed.

Lemma lor_check_any (d s : Z) :
  decimal d -> 0 <= Z.lor d (Z.shiftl (s mod 5) 1) < 16.
Proof.
  intros Hd. pose proof (Z.mod_pos_bound s 5 ltac:(lia)) as Hs.
  unfold decimal in Hd. change 16 with (2 ^ 4).
  apply lor_bound; [lia | change (2 ^ 4) with 16; lia |].
  rewrite Z.shiftl_mul_pow2 by lia. change (2 ^ 4) with 16. lia.
Qed.

Lemma leading_digit (n : Z) : counter n -> 0 <= (n / 10 ^ 7) mod 10 <= 1.
Proof.
  intros [H0 H1]. change (2 ^ 24) with 16777216 in H1.
  change (10 ^ 7) with 10000000.
  assert (0 <= n / 10000000 < 2).
  { split; [apply Z.div_pos; lia | apply Z.div_lt_upper_bound; lia]. }
  rewrite Z.mod_small; lia.
Qed.

(** After the injection every element is still a decimal digit: places
    7 and 15 hold the leading digits of two numbers below [2 ^ 24], which
    are 0 or 1, and the check value or-ed in is even and at most 8. *)
Lemma injected_decimal (n0 n1 : Z) :
  counter n0 -> counter n1 ->
  Forall decimal (Spec.inject (rev (Spec.dec8 n0 ++ Spec.dec8 n1))).
Proof.
  intros H0 H1. unfold Spec.inject, Spec.update, Spec.dec8. cbv zeta.
  run_lists.
  repeat (apply Forall_cons; [try (apply Z.mod_pos_bound; lia)|]);
    try apply Forall_nil; apply lor_check_leading, leading_digit; assumption.
Qed.

Lemma concat_str_decimal (v : list Z) :
  Forall decimal v ->
  List.concat (map Py.str_of_int v) = map Spec.digit_character v.
Proof.
  induction 1 as [|d v Hd _ IH]; [reflexivity|].
  cbn [map List.concat]. rewrite IH, str_of_digit by exact Hd.
  cbn [app]. f_equal. unfold Py.digit_char, Spec.digit_character.
  unfold decimal in Hd. destruct (Z.ltb_spec d 10); [reflexivity | lia].
Qed.

Lemma SE_validation_number_pipeline (self : SASGame) :
  counter (_v_seq self) -> counter (_v_id self) ->
  SE_validation_number_result self
  = Ok (Spec.validation_number (_v_seq self) (_v_id self)).
Proof.
  intros Hseq Hid. unfold SE_validation_number_result.
  rewrite (SE_digits_numbers self Hseq Hid). cbn [bind].
  rewrite SE_inject_inject.
  2:{ rewrite length_rev, length_app. reflexivity. }
  cbn [bind]. f_equal.
  unfold SE_render, Spec.validation_number, Spec.injected. cbv zeta.
  destruct (numbers_counter (_v_seq self) (_v_id self)) as [Hn0 Hn1].
  destruct (Spec.numbers (_v_seq self) (_v_id self)) as [n0 n1].
  cbn [fst snd] in *. f_equal. apply concat_str_decimal.
  apply Forall_rev, injected_decimal; assumption.
Qed.

Lemma str_length (x : Z) :
  0 <= x < 16 ->
  List.length (Py.str_of_int x) = if x <? 10 then 1%nat else 2%nat.
Proof.
  intros H. destruct (Z.ltb_spec x 10).
  - rewrite str_of_digit by lia. reflexivity.
  - rewrite str_of_two_digits by lia. reflexivity.
Qed.

Lemma str_length_decimal (x : Z) :
  decimal x -> List.length (Py.str_of_int x) = 1%nat.
Proof. intros H. rewrite str_of_digit by exact H. reflexivity. Qed.

(** Lines 169-173 on any sixteen decimal digits: the output begins with
    ["00"], and is 18 characters long plus one for each of the two
    injected elements that is above 9. *)
Lemma inject_render_length (ds : list Z) :
  List.length ds = 16%nat -> Forall decimal ds ->
  SE_inject ds = Ok (Spec.inject ds)
  /\ firstn 2 (SE_render (Spec.inject ds)) = Py.lit "00"
  /\ List.length (SE_render (Spec.inject ds))
     = (18 + extra (nth 7 (Spec.inject ds) 0%Z)
        + extra (nth 15 (Spec.inject ds) 0%Z))%nat.
Proof.
  intros H HF. split; [apply SE_inject_inject, H|].
  do 16 (destruct ds as [|? ds]; [discriminate H|]).
  destruct ds; [clear H|discriminate H].
  repeat match goal with
         | HF : Forall _ (_ :: _) |- _ =>
             let Hd := fresh "Hd" in
             apply Forall_cons_iff in HF as [Hd HF]
         end.
  unfold SE_render, Spec.inject, Spec.update. cbv zeta. run_lists.
  cbn [List.concat Py.lit list_ascii_of_string]. split; [reflexivity|].
  cbn [List.length]. rewrite !length_app.
  rewrite !str_length
    by first [apply lor_check_any; assumption | unfold decimal in *; lia].
  repeat match goal with
         | Hd : decimal ?z |- _ =>
             try rewrite (proj2 (Z.ltb_lt z 10) (proj2 Hd)); clear Hd
         end.
  unfold extra. cbn [List.length].
  repeat match goal with |- context [if ?c then _ else _] => destruct c end;
    reflexivity.
Qed.

(** For counters in range neither injection can go above 9. *)
Lemma SE_inject_never_overflows (self : SASGame) :
  counter (_v_seq self) -> counter (_v_id self) ->
  exists v, (v <- SE_digits self ;; SE_inject v) = Ok v /\ Forall decimal v.
Proof.
  intros Hseq Hid.
  destruct (numbers_counter (_v_seq self) (_v_id self)) as [Hn0 Hn1].
  eexists. rewrite (SE_digits_numbers self Hseq Hid). cbn [bind].
  rewrite SE_inject_inject by (rewrite length_rev, length_app; reflexivity).
  split; [reflexivity | apply injected_decimal; assumption].
Qed.

Lemma validation_number_18 (seq id : Z) :
  List.length (Spec.validation_number seq id) = 18%nat.
Proof.
  unfold Spec.validation_number, Spec.injected.
  destruct (Spec.numbers seq id) as [n0 n1]. cbv zeta.
  unfold Spec.inject, Spec.update. cbv zeta.
  rewrite length_app, length_map, length_rev, length_app.
  cbn [List.length]. rewrite length_firstn, length_skipn.
  rewrite !length_app. cbn [List.length].
  rewrite !length_firstn, !length_skipn, !length_rev, !length_app.
  reflexivity.
Qed.

End ValidationNumber.

Example crc_1_0 : crc [1; 0] 0 = Ok [0xD8; 0x19].
Proof. reflexivity. Qed.

Example SE_validation_number_1_1 :
  fst (Game.SE_validation_number (mkSASGame 1 1 _602_meters []))
  = Ok (Py.lit "000169370485315032").
Proof. reflexivity. Qed.

Example SE_validation_number_fresh :
  exists g, Game.__init__ _602_meters = Ok g
            /\ fst (Game.SE_validation_number g)
               = Ok (Py.lit "000000000000000000").
Proof. eexists. split; reflexivity. Qed.

Example SE_inject_above_9 :
  Game.SE_inject [0; 0; 0; 0; 0; 0; 4; 5; 0; 0; 0; 0; 0; 0; 0; 0]
  = Ok [0; 0; 0; 0; 0; 0; 4; 13; 0; 0; 0; 0; 0; 0; 0; 0]
  /\ Game.SE_render [0; 0; 0; 0; 0; 0; 4; 13; 0; 0; 0; 0; 0; 0; 0; 0]
     = Py.lit "0000000000134000000".
Proof. split; reflexivity. Qed.

(** C1: for counters in [0, 2 ^ 24), [SE_validation_number] returns the
    string of the specification's pipeline: three little-endian bytes of
    the sequence, then of the id; the fixed XOR wiring; three checksums
    with seed 0; [n0] from bytes 3 to 5 and [n1] from bytes 0 to 2; their
    eight-digit decimal forms; the reversal; the check values or-ed into
    places 7 and 15; the second reversal; ["00"] and one character for
    each of the sixteen elements. *)
Theorem SE_validation_number_refines (self : SASGame) :
  0 <= _v_seq self < 2 ^ 24 -> 0 <= _v_id self < 2 ^ 24 ->
  fst (Game.SE_validation_number self)
  = Ok (Spec.validation_number (_v_seq self) (_v_id self)).
Proof. exact (SE_validation_number_pipeline self). Qed.

Lemma SE_validation_number_refines_witness :
  fst (Game.SE_validation_number (mkSASGame 70000 123456 _602_meters []))
  = Ok (Spec.validation_number 123456 70000).
Proof.
  apply (SE_validation_number_refines (mkSASGame 70000 123456 _602_meters []));
    cbn [_v_seq _v_id]; lia.
Defined.

(** C2: for counters in [0, 2 ^ 24), with [v] the sixteen elements after
    the two injections: when neither injected element is above 9 the
    string returned begins with ["00"] and has exactly 18 characters; when
    one is above 9 it is printed by [str] as more than one character and
    the string is longer than 18.  The second part is stated as well for
    the injection and the printing run on any sixteen decimal digits
    [ds]. *)
Theorem SE_validation_number_length (self : SASGame) (ds : list Z) :
  0 <= _v_seq self < 2 ^ 24 -> 0 <= _v_id self < 2 ^ 24 ->
  List.length ds = 16%nat -> Forall (fun d => 0 <= d < 10) ds ->
  (exists v s,
      (v <- Game.SE_digits self ;; Game.SE_inject v) = Ok v
      /\ fst (Game.SE_validation_number self) = Ok s
      /\ s = Py.lit "00" ++ List.concat (map Py.str_of_int (rev v))
      /\ (nth 7 v 0 <= 9 /\ nth 15 v 0 <= 9 ->
          firstn 2 s = Py.lit "00" /\ List.length s = 18%nat)
      /\ (9 < nth 7 v 0 \/ 9 < nth 15 v 0 -> (18 < List.length s)%nat))
  /\ (exists v,
         Game.SE_inject ds = Ok v
         /\ (nth 7 v 0 <= 9 /\ nth 15 v 0 <= 9 ->
             firstn 2 (Game.SE_render v) = Py.lit "00"
             /\ List.length (Game.SE_render v) = 18%nat)
         /\ (9 < nth 7 v 0 \/ 9 < nth 15 v 0 ->
             (18 < List.length (Game.SE_render v))%nat)).
Proof.
  intros Hseq Hid Hlen Hds.
  assert (Hgen : forall l, List.length l = 16%nat -> Forall decimal l ->
    Game.SE_inject l = Ok (Spec.inject l)
    /\ (nth 7 (Spec.inject l) 0 <= 9 /\ nth 15 (Spec.inject l) 0 <= 9 ->
        firstn 2 (Game.SE_render (Spec.inject l)) = Py.lit "00"
        /\ List.length (Game.SE_render (Spec.inject l)) = 18%nat)
    /\ (9 < nth 7 (Spec.inject l) 0 \/ 9 < nth 15 (Spec.inject l) 0 ->
        (18 < List.length (Game.SE_render (Spec.inject l)))%nat)).
  { intros l Hl HF.
    destruct (inject_render_length l Hl HF) as (Hi & Hp & Hn).
    split; [exact Hi|]. rewrite Hn. unfold extra.
    destruct (Z.ltb_spec (nth 7 (Spec.inject l) 0) 10);
      destruct (Z.ltb_spec (nth 15 (Spec.inject l) 0) 10);
      (split; [intros [? ?]; split; [exact Hp | lia] | intros [?|?]; lia]). }
  destruct (numbers_counter (_v_seq self) (_v_id self)) as [Hn0 Hn1].
  set (l := rev (Spec.dec8 (fst (Spec.numbers (_v_seq self) (_v_id self)))
                 ++ Spec.dec8 (snd (Spec.numbers (_v_seq self) (_v_id self))))).
  assert (Hl : List.length l = 16%nat).
  { unfold l. rewrite length_rev, length_app. reflexivity. }
  assert (HF : Forall decimal l).
  { unfold l. apply Forall_rev, Forall_app. split; apply dec8_decimal. }
  destruct (Hgen l Hl HF) as (Hi & Hle & Hgt).
  split.
  - exists (Spec.inject l), (Game.SE_render (Spec.inject l)).
    unfold Game.SE_validation_number, Game.SE_validation_number_result.
    cbn [fst]. rewrite (SE_digits_numbers self Hseq Hid). fold l.
    cbn [bind]. rewrite Hi. cbn [bind].
    split; [reflexivity | split; [reflexivity | split; [reflexivity|]]].
    split; assumption.
  - exists (Spec.inject ds). apply Hgen; assumption.
Qed.

Lemma SE_validation_number_length_witness :
  (exists v s,
      (v <- Game.SE_digits (mkSASGame 1 1 _602_meters []) ;;
       Game.SE_inject v) = Ok v
      /\ fst (Game.SE_validation_number (mkSASGame 1 1 _602_meters [])) = Ok s
      /\ s = Py.lit "00" ++ List.concat (map Py.str_of_int (rev v))
      /\ (nth 7 v 0 <= 9 /\ nth 15 v 0 <= 9 ->
          firstn 2 s = Py.lit "00" /\ List.length s = 18%nat)
      /\ (9 < nth 7 v 0 \/ 9 < nth 15 v 0 -> (18 < List.length s)%nat))
  /\ (exists v,
         Game.SE_inject [0; 0; 0; 0; 0; 0; 4; 5; 0; 0; 0; 0; 0; 0; 0; 0] = Ok v
         /\ (nth 7 v 0 <= 9 /\ nth 15 v 0 <= 9 ->
             firstn 2 (Game.SE_render v) = Py.lit "00"
             /\ List.length (Game.SE_render v) = 18%nat)
         /\ (9 < nth 7 v 0 \/ 9 < nth 15 v 0 ->
             (18 < List.length (Game.SE_render v))%nat)).
Proof.
  apply (SE_validation_number_length (mkSASGame 1 1 _602_meters [])
           [0; 0; 0; 0; 0; 0; 4; 5; 0; 0; 0; 0; 0; 0; 0; 0]).
  - cbn [_v_seq]. lia.
  - cbn [_v_id]. lia.
  - reflexivity.
  - repeat constructor; lia.
Defined.

(** C10: when the sequence or the id is negative or at least [2 ^ 24],
    [SE_validation_number] raises [OverflowError] at one of the two
    [to_bytes(3, byteorder='little')] calls it begins with, returns no
    string, and leaves the object, its meters and both counters, as it
    was. *)
Theorem SE_validation_number_out_of_range (self : SASGame) :
  (_v_seq self < 0 \/ 2 ^ 24 <= _v_seq self
   \/ _v_id self < 0 \/ 2 ^ 24 <= _v_id self) ->
  Game.SE_validation_number self = (Raise OverflowError, self)
  /\ (Py.to_bytes (_v_seq self) 3 Py.little = Raise OverflowError
      \/ Py.to_bytes (_v_id self) 3 Py.little = Raise OverflowError)
  /\ (forall s, fst (Game.SE_validation_number self) <> Ok s)
  /\ meters (snd (Game.SE_validation_number self)) = meters self
  /\ _v_seq (snd (Game.SE_validation_number self)) = _v_seq self
  /\ _v_id (snd (Game.SE_validation_number self)) = _v_id self.
Proof.
  intros H.
  assert (E : Game.SE_validation_number self = (Raise OverflowError, self)).
  { unfold Game.SE_validation_number, Game.SE_validation_number_result,
      Game.SE_digits.
    f_equal.
    destruct (Z_lt_le_dec (_v_seq self) 0) as [Hneg|Hpos];
      [rewrite to_bytes_3_out_of_range by lia; reflexivity|].
    destruct (Z_lt_le_dec (_v_seq self) (2 ^ 24)) as [Hlt|Hge];
      [|rewrite to_bytes_3_out_of_range by lia; reflexivity].
    rewrite (to_bytes_3_little (_v_seq self)) by (unfold counter; lia).
    cbn [bind]. rewrite to_bytes_3_out_of_range by lia. reflexivity. }
  split; [exact E|]. rewrite E. cbn [fst snd].
  split; [|split; [discriminate | repeat split]].
  destruct H as [H|[H|H]].
  - left. apply to_bytes_3_out_of_range. lia.
  - left. apply to_bytes_3_out_of_range. lia.
  - right. apply to_bytes_3_out_of_range. lia.
Qed.

Lemma SE_validation_number_out_of_range_witness :
  Game.SE_validation_number (mkSASGame 5 16777216 _602_meters [])
  = (Raise OverflowError, mkSASGame 5 16777216 _602_meters [])
  /\ Game.SE_validation_number (mkSASGame (-1) 5 _602_meters [])
     = (Raise OverflowError, mkSASGame (-1) 5 _602_meters []).
Proof.
  split.
  - apply (SE_validation_number_out_of_range
             (mkSASGame 5 16777216 _602_meters [])).
    right. left. cbn [_v_seq]. lia.
  - apply (SE_validation_number_out_of_range
             (mkSASGame (-1) 5 _602_meters [])).
    right. right. left. cbn [_v_id]. lia.
Defined.

(** * Further properties *)

(** ** The checksum beyond 16-bit seeds *)

Section ChecksumDomain.

Lemma nibble_high (s x : Z) :
  Z.shiftr (Spec.nibble_step s x) 16 = Z.shiftr s 20.
Proof.
  unfold Spec.nibble_step. cbv zeta.
  pose proof (land_15 (Z.lxor s x)) as Hq.
  rewrite Z.shiftr_lxor, Z.shiftr_shiftr by lia.
  rewrite (Z.shiftr_div_pow2 (_ * _)) by lia.
  rewrite (Z.div_small (_ * _)), Z.lxor_0_r; [reflexivity|].
  change (2 ^ 16) with 65536. lia.
Qed.

Lemma nibble_sign (s x : Z) : 0 <= Spec.nibble_step s x <-> 0 <= s.
Proof.
  unfold Spec.nibble_step. cbv zeta.
  pose proof (land_15 (Z.lxor s x)) as Hq.
  rewrite Z.lxor_nonneg, Z.shiftr_nonneg. intuition lia.
Qed.

Lemma crc_body_high (s x : Z) : Z.shiftr (crc_body s x) 16 = Z.shiftr s 24.
Proof.
  rewrite crc_body_steps, nibble_high.
  replace 20 with (16 + 4) by reflexivity.
  rewrite <- Z.shiftr_shiftr, nibble_high, Z.shiftr_shiftr by lia. reflexivity.
Qed.

Lemma crc_body_sign (s x : Z) : 0 <= crc_body s x <-> 0 <= s.
Proof. rewrite crc_body_steps. now rewrite !nibble_sign. Qed.

Lemma crc_loop_high (b : list Z) (s : Z) :
  Z.shiftr (crc_loop b s) 16 = Z.shiftr s (16 + 8 * Z.of_nat (List.length b)).
Proof.
  unfold crc_loop. revert s.
  induction b as [|x b IH]; intros s; cbn [fold_left List.length].
  - f_equal.
  - rewrite IH. replace 24 with (16 + 8) in * by reflexivity.
    rewrite <- (Z.shiftr_shiftr (crc_body s x)) by lia.
    rewrite crc_body_high, Z.shiftr_shiftr by lia. f_equal. lia.
Qed.

Lemma crc_loop_sign (b : list Z) (s : Z) : 0 <= crc_loop b s <-> 0 <= s.
Proof.
  unfold crc_loop. revert s.
  induction b as [|x b IH]; intros s; cbn [fold_left]; [tauto|].
  now rewrite IH, crc_body_sign.
Qed.

Lemma shiftr_zero_iff (s n : Z) :
  0 <= s -> 0 <= n -> (Z.shiftr s n = 0 <-> s < 2 ^ n).
Proof.
  intros Hs Hn. rewrite Z.shiftr_div_pow2 by exact Hn.
  assert (0 < 2 ^ n) by (apply Z.pow_pos_nonneg; lia).
  split; intros H1.
  - apply Z.div_small_iff in H1; lia.
  - apply Z.div_small. lia.
Qed.

End ChecksumDomain.

(** X1: for any input, [crc] returns (two bytes) exactly when the seed
    is in [0, 2 ^ (16 + 8 * len(b))): every byte consumed shifts eight
    bits out of the seed.  A negative seed, or one with a bit left above
    bit 15, raises [OverflowError]. *)
Theorem crc_domain (b : list Z) (seed : Z) :
  (0 <= seed < 2 ^ (16 + 8 * Z.of_nat (List.length b)) ->
   exists lo hi, crc b seed = Ok [lo; hi] /\ 0 <= lo < 256 /\ 0 <= hi < 256)
  /\ (seed < 0 \/ 2 ^ (16 + 8 * Z.of_nat (List.length b)) <= seed ->
      crc b seed = Raise OverflowError).
Proof.
  pose proof (crc_loop_high b seed) as Hh.
  pose proof (crc_loop_sign b seed) as Hs.
  split.
  - intros [H0 H1].
    assert (Hw : word16 (crc_loop b seed)).
    { split; [tauto|]. apply shiftr_zero_iff; [tauto | lia |].
      rewrite Hh. apply shiftr_zero_iff; lia. }
    unfold crc. rewrite (to_bytes_2_little _ Hw).
    destruct Hw as [Hw0 Hw1]. change (2 ^ 16) with 65536 in Hw1.
    do 2 eexists. split; [reflexivity|]. split.
    + apply Z.mod_pos_bound. lia.
    + split; [apply Z.div_pos; lia | apply Z.div_lt_upper_bound; lia].
  - intros [Hneg|Hbig]; unfold crc.
    + apply to_bytes_negative; lia.
    + apply to_bytes_too_big; [lia|].
      assert (H0 : 0 <= crc_loop b seed).
      { apply Hs. pose proof (Z.pow_pos_nonneg 2 (16 + 8 * Z.of_nat (List.length b))). lia. }
      destruct (Z_lt_le_dec (crc_loop b seed) (256 ^ 2)) as [Hlt|Hge]; [|exact Hge].
      exfalso. change (256 ^ 2) with (2 ^ 16) in Hlt.
      apply shiftr_zero_iff in Hlt; [|lia|lia].
      rewrite Hh in Hlt. apply shiftr_zero_iff in Hlt; lia.
Qed.

Lemma crc_domain_witness :
  (exists lo hi, crc [7; 9] 4294967295 = Ok [lo; hi]
                 /\ 0 <= lo < 256 /\ 0 <= hi < 256)
  /\ crc [7; 9] 4294967296 = Raise OverflowError
  /\ crc [7; 9] (-1) = Raise OverflowError.
Proof.
  destruct (crc_domain [7; 9] 4294967295) as [Hok _].
  destruct (crc_domain [7; 9] 4294967296) as [_ Hbig].
  destruct (crc_domain [7; 9] (-1)) as [_ Hneg].
  split; [|split].
  - apply Hok. cbn. lia.
  - apply Hbig. right. cbn. lia.
  - apply Hneg. left. lia.
Defined.

(** X2: a checksum can be continued: with a 16-bit seed, the checksum of
    [b1 ++ b2] is the checksum of [b2] seeded with the two bytes [crc]
    returned for [b1], read least significant byte first. *)
Theorem crc_chain (b1 b2 : list Z) (seed : Z) :
  0 <= seed < 2 ^ 16 ->
  exists lo hi,
    crc b1 seed = Ok [lo; hi]
    /\ crc (b1 ++ b2) seed = crc b2 (lo + 256 * hi).
Proof.
  intros H. pose proof (crc_loop_word16 b1 seed H) as [H0 H1].
  rewrite (crc_ok b1 seed H). do 2 eexists. split; [reflexivity|].
  unfold crc, crc_loop. rewrite fold_left_app. do 2 f_equal.
  fold (crc_loop b1 seed).
  pose proof (Z.div_mod (crc_loop b1 seed) 256 ltac:(lia)). lia.
Qed.

Lemma crc_chain_witness :
  exists lo hi,
    crc [1; 2] 5 = Ok [lo; hi]
    /\ crc ([1; 2] ++ [3]) 5 = crc [3] (lo + 256 * hi).
Proof. apply (crc_chain [1; 2] [3] 5). lia. Defined.

Section ChecksumLowBits.

Lemma land_15_low (s x y : Z) :
  (forall n, 0 <= n < 4 -> Z.testbit x n = Z.testbit y n) ->
  Z.land (Z.lxor s x) 15 = Z.land (Z.lxor s y) 15.
Proof.
  intros H. apply Z.bits_inj'. intros n Hn.
  rewrite !Z.land_spec, !Z.lxor_spec. change 15 with (Z.ones 4).
  rewrite Z.testbit_ones_nonneg by lia.
  destruct (Z.ltb_spec n 4); [|now rewrite !andb_false_r].
  rewrite H by lia. reflexivity.
Qed.

Lemma crc_body_low (s x : Z) : crc_body s (x mod 256) = crc_body s x.
Proof.
  unfold crc_body. cbv zeta. change (Py.oct [1; 7]) with 15.
  change 256 with (2 ^ 8).
  assert (E1 : forall t, Z.land (Z.lxor t (x mod 2 ^ 8)) 15
                         = Z.land (Z.lxor t x) 15).
  { intros t. apply land_15_low. intros n Hn.
    apply Z.mod_pow2_bits_low. lia. }
  assert (E2 : forall t, Z.land (Z.lxor t (Z.shiftr (x mod 2 ^ 8) 4)) 15
                         = Z.land (Z.lxor t (Z.shiftr x 4)) 15).
  { intros t. apply land_15_low. intros n Hn.
    rewrite !Z.shiftr_spec by lia. apply Z.mod_pow2_bits_low. lia. }
  rewrite E1, E2. reflexivity.
Qed.

End ChecksumLowBits.

(** X3: only the low eight bits of each element of the input reach the
    checksum: on a sequence of ints, [crc] gives what it gives on the
    elements reduced modulo 256, for every seed. *)
Theorem crc_low_bits (b : list Z) (seed : Z) :
  crc (map (fun x => x mod 256) b) seed = crc b seed.
Proof.
  unfold crc, crc_loop. f_equal. revert seed.
  induction b as [|x b IH]; intros seed; [reflexivity|].
  cbn [map fold_left]. rewrite crc_body_low. apply IH.
Qed.

Section ChecksumInjective.

Lemma in_zrange (n : nat) (start z : Z) :
  start <= z < start + Z.of_nat n -> In z (zrange n start).
Proof.
  revert start. induction n as [|n IH]; intros start H; [lia|].
  cbn [zrange]. destruct (Z.eq_dec start z) as [->|Hne]; [now left|].
  right. apply IH. lia.
Qed.

Lemma crc_preimage_table :
  forallb (fun x1 =>
    forallb (fun x0 => crc_preimage (crc_loop [x0; x1] 0) =? x0 + 256 * x1)
            (zrange 256 0))
    (zrange 256 0) = true.
Proof. vm_compute. reflexivity. Qed.

Lemma crc_preimage_loop (x0 x1 : Z) :
  byte x0 -> byte x1 -> crc_preimage (crc_loop [x0; x1] 0) = x0 + 256 * x1.
Proof.
  intros H0 H1. pose proof crc_preimage_table as T.
  rewrite forallb_forall in T.
  specialize (T x1 (in_zrange 256 0 x1 H1)).
  rewrite forallb_forall in T.
  specialize (T x0 (in_zrange 256 0 x0 H0)).
  now apply Z.eqb_eq in T.
Qed.

Lemma crc_loop_injective (x0 x1 y0 y1 : Z) :
  byte x0 -> byte x1 -> byte y0 -> byte y1 ->
  crc_loop [x0; x1] 0 = crc_loop [y0; y1] 0 -> x0 = y0 /\ x1 = y1.
Proof.
  intros Hx0 Hx1 Hy0 Hy1 E.
  apply (f_equal crc_preimage) in E.
  rewrite !crc_preimage_loop in E by assumption.
  unfold byte in *. lia.
Qed.

End ChecksumInjective.

(** X4: with seed 0 no two different pairs of bytes have the same
    checksum, and [crc_preimage] gives the pair back from the two bytes
    returned. *)
Theorem crc_two_bytes_injective (x0 x1 y0 y1 : Z) :
  0 <= x0 < 256 -> 0 <= x1 < 256 -> 0 <= y0 < 256 -> 0 <= y1 < 256 ->
  (crc [x0; x1] 0 = crc [y0; y1] 0 -> x0 = y0 /\ x1 = y1)
  /\ exists lo hi, crc [x0; x1] 0 = Ok [lo; hi]
                   /\ crc_preimage (lo + 256 * hi) = x0 + 256 * x1.
Proof.
  intros Hx0 Hx1 Hy0 Hy1.
  assert (W : word16 0) by (unfold word16; lia).
  pose proof (crc_loop_word16 [x0; x1] 0 W) as [A0 A1].
  pose proof (crc_loop_word16 [y0; y1] 0 W) as [B0 B1].
  rewrite !crc_ok by exact W. split.
  - intros E. apply crc_loop_injective; try (unfold byte; assumption).
    remember (crc_loop [x0; x1] 0) as a. remember (crc_loop [y0; y1] 0) as c.
    injection E as Em Ed.
    pose proof (Z.div_mod a 256 ltac:(lia)).
    pose proof (Z.div_mod c 256 ltac:(lia)). lia.
  - do 2 eexists. split; [reflexivity|].
    rewrite <- (crc_preimage_loop x0 x1) by (unfold byte; assumption).
    f_equal.
    pose proof (Z.div_mod (crc_loop [x0; x1] 0) 256 ltac:(lia)). lia.
Qed.

Lemma crc_two_bytes_injective_witness :
  (crc [18; 52] 0 = crc [18; 52] 0 -> 18 = 18 /\ 52 = 52)
  /\ exists lo hi, crc [18; 52] 0 = Ok [lo; hi]
                   /\ crc_preimage (lo + 256 * hi) = 18 + 256 * 52.
Proof. apply (crc_two_bytes_injective 18 52 18 52); lia. Defined.

(** ** The codec, further *)

Section CodecFurther.

Lemma magnitude_low_byte (z : Z) :
  0 <= z ->
  Spec.magnitude z mod 256 = 16 * ((z / 10) mod 10) + z mod 10
  /\ Spec.magnitude z / 256 = Spec.magnitude (z / 100).
Proof.
  intros Hz.
  assert (Hq : 0 <= z / 10) by (apply Z.div_pos; lia).
  assert (Hm : Spec.magnitude z
               = 256 * Spec.magnitude (z / 100)
                 + (16 * ((z / 10) mod 10) + z mod 10)).
  { rewrite (magnitude_step z Hz), (magnitude_step (z / 10) Hq).
    rewrite Z.div_div by lia. change (10 * 10) with 100. lia. }
  pose proof (Z.mod_pos_bound z 10 ltac:(lia)).
  pose proof (Z.mod_pos_bound (z / 10) 10 ltac:(lia)).
  split.
  - symmetry. apply Z.mod_unique_pos with (q := Spec.magnitude (z / 100));
      [lia | exact Hm].
  - symmetry. apply Z.div_unique_pos
      with (r := 16 * ((z / 10) mod 10) + z mod 10); [lia | exact Hm].
Qed.

Lemma le_bytes_magnitude_bcd (n : nat) (z : Z) :
  0 <= z ->
  Forall bcd_byte (Py.le_bytes n (Spec.magnitude z))
  /\ fold_right (fun b acc => acc * 100 + (10 * (b / 16) + b mod 16)) 0
       (Py.le_bytes n (Spec.magnitude z))
     = z mod 100 ^ Z.of_nat n.
Proof.
  revert z. induction n as [|n IH]; intros z Hz.
  - split; [constructor|]. cbn [Py.le_bytes fold_right].
    change (100 ^ Z.of_nat 0) with 1. now rewrite Z.mod_1_r.
  - cbn [Py.le_bytes fold_right].
    destruct (magnitude_low_byte z Hz) as [E1 E2]. rewrite E1, E2.
    destruct (IH (z / 100) ltac:(apply Z.div_pos; lia)) as [IH1 IH2].
    pose proof (Z.mod_pos_bound z 10 ltac:(lia)) as B0.
    pose proof (Z.mod_pos_bound (z / 10) 10 ltac:(lia)) as B1.
    assert (Ed : (16 * ((z / 10) mod 10) + z mod 10) / 16 = (z / 10) mod 10).
    { symmetry. apply Z.div_unique_pos with (r := z mod 10); lia. }
    assert (Em : (16 * ((z / 10) mod 10) + z mod 10) mod 16 = z mod 10).
    { symmetry. apply Z.mod_unique_pos with (q := (z / 10) mod 10); lia. }
    split.
    + constructor; [|exact IH1]. unfold bcd_byte. rewrite Ed, Em. lia.
    + rewrite IH2, Ed, Em.
      rewrite Nat2Z.inj_succ, Z.pow_succ_r by lia.
      rewrite (Z.rem_mul_r z 100 (100 ^ Z.of_nat n))
        by (try apply Z.pow_nonzero; try apply Z.pow_pos_nonneg; lia).
      assert (z mod 100 = 10 * ((z / 10) mod 10) + z mod 10).
      { change 100 with (10 * 10). rewrite Z.rem_mul_r by lia. lia. }
      lia.
Qed.

Lemma int_to_bcd_ok_inv (i w : Z) (bs : list Z) :
  int_to_bcd i w = Ok bs -> 0 <= i /\ 0 <= w /\ i < 10 ^ (2 * w).
Proof.
  intros E.
  destruct (Z_lt_le_dec i 0) as [Hi|Hi];
    [rewrite int_to_bcd_invalid in E by (now left); discriminate|].
  destruct (Z_lt_le_dec w 0) as [Hw|Hw];
    [rewrite int_to_bcd_invalid in E by (now right); discriminate|].
  destruct (Z_lt_le_dec i (10 ^ (2 * w))) as [Hlt|Hge]; [tauto|].
  rewrite int_to_bcd_overflow in E by assumption. discriminate.
Qed.

Lemma int_to_bcd_decimal (i w : Z) (bs : list Z) :
  int_to_bcd i w = Ok bs ->
  Forall bcd_byte bs /\ packed_decimal_value bs = i.
Proof.
  intros E. destruct (int_to_bcd_ok_inv i w bs E) as (Hi & Hw & Hlt).
  rewrite int_to_bcd_fits in E by assumption. injection E as <-.
  destruct (le_bytes_magnitude_bcd (Z.to_nat w) i Hi) as [HF Hv]. split.
  - apply Forall_rev, HF.
  - unfold packed_decimal_value.
    rewrite <- (rev_involutive (Py.le_bytes _ _)) in Hv.
    rewrite fold_left_rev_right in Hv. rewrite Hv.
    apply Z.mod_small. split; [exact Hi|].
    rewrite Z2Nat.id by exact Hw. change 100 with (10 ^ 2).
    rewrite <- Z.pow_mul_r by lia. exact Hlt.
Qed.

End CodecFurther.

(** X5: what [int_to_bcd] returns is packed decimal.  Both nibbles of
    every byte are decimal digits, and reading the bytes two decimal
    digits at a time gives the value back. *)
Theorem int_to_bcd_is_packed_decimal (i w : Z) (bs : list Z) :
  int_to_bcd i w = Ok bs ->
  Forall (fun b => 0 <= b / 16 <= 9 /\ 0 <= b mod 16 <= 9) bs
  /\ packed_decimal_value bs = i
  /\ Z.of_nat (List.length bs) = w.
Proof.
  intros E. destruct (int_to_bcd_decimal i w bs E) as [HF Hv].
  split; [exact HF | split; [exact Hv|]].
  destruct (int_to_bcd_ok_inv i w bs E) as (Hi & Hw & Hlt).
  rewrite int_to_bcd_fits in E by assumption. injection E as <-.
  rewrite length_rev, le_bytes_length. lia.
Qed.

Lemma int_to_bcd_is_packed_decimal_witness :
  Forall (fun b => 0 <= b / 16 <= 9 /\ 0 <= b mod 16 <= 9) [0x00; 0x12; 0x34]
  /\ packed_decimal_value [0x00; 0x12; 0x34] = 1234
  /\ Z.of_nat (List.length [0x00; 0x12; 0x34]) = 3.
Proof. apply (int_to_bcd_is_packed_decimal 1234 3). reflexivity. Defined.

(** X6: [int_to_bcd] is injective in the value: two values encoded to the
    same bytes at the same width are equal. *)
Theorem int_to_bcd_injective (i j w : Z) (bs : list Z) :
  int_to_bcd i w = Ok bs -> int_to_bcd j w = Ok bs -> i = j.
Proof.
  intros Ei Ej.
  destruct (int_to_bcd_decimal i w bs Ei) as [_ <-].
  destruct (int_to_bcd_decimal j w bs Ej) as [_ Hj]. now symmetry.
Qed.

Lemma int_to_bcd_injective_witness : 907 = 907.
Proof.
  apply (int_to_bcd_injective 907 907 2 [0x09; 0x07]); reflexivity.
Defined.

(** ** The decoder *)

Section Decoder.

Lemma format_x_hex_digits (b : Z) :
  byte b -> Py.format_x b = map Py.digit_char (hex_digits b).
Proof.
  intros [H0 H1]. unfold hex_digits. destruct (Z.ltb_spec b 16).
  - apply format_x_one_char. lia.
  - rewrite format_x_hex2 by lia. reflexivity.
Qed.

Lemma hex_digits_digit (b : Z) :
  byte b -> Forall (fun d => 0 <= d < 16 /\ d < 16) (hex_digits b).
Proof.
  intros [H0 H1]. unfold hex_digits. destruct (Z.ltb_spec b 16).
  - repeat constructor; lia.
  - pose proof (Z.mod_pos_bound b 16 ltac:(lia)).
    assert (0 <= b / 16 < 16).
    { split; [apply Z.div_pos; lia | apply Z.div_lt_upper_bound; lia]. }
    repeat constructor; lia.
Qed.

Lemma bcd_to_int_string (x : list Z) :
  Forall byte x ->
  fold_left (fun s i => s ++ Py.format_x i) x []
  = map Py.digit_char (List.concat (map hex_digits x)).
Proof.
  intros HF.
  assert (H : forall acc,
             fold_left (fun s i => s ++ Py.format_x i) x acc
             = acc ++ map Py.digit_char (List.concat (map hex_digits x))).
  { induction HF as [|b x Hb _ IH]; intros acc;
      cbn [fold_left map List.concat].
    - now rewrite app_nil_r.
    - rewrite IH, format_x_hex_digits, map_app by exact Hb.
      now rewrite app_assoc. }
  apply (H []).
Qed.

Lemma horner_hex_digits (x : list Z) (acc : Z) :
  Forall byte x ->
  horner 16 (List.concat (map hex_digits x)) acc
  = fold_left (fun a b => a * (if b <? 16 then 16 else 256) + b) x acc.
Proof.
  intros HF. revert acc.
  induction HF as [|b x Hb _ IH]; intros acc; [reflexivity|].
  cbn [map List.concat fold_left]. unfold horner in *.
  rewrite fold_left_app, IH. f_equal.
  unfold hex_digits. destruct (Z.ltb_spec b 16); cbn [fold_left]; [lia|].
  pose proof (Z.div_mod b 16 ltac:(lia)). lia.
Qed.

Lemma bcd_to_int_value (x : list Z) :
  Forall byte x -> x <> [] -> bcd_to_int x = Ok (ragged_hex_value x).
Proof.
  intros HF Hne. unfold bcd_to_int, ragged_hex_value. cbv zeta.
  rewrite bcd_to_int_string by exact HF.
  rewrite <- horner_hex_digits by exact HF.
  assert (HD : Forall (fun d => 0 <= d < 16 /\ d < 16)
                 (List.concat (map hex_digits x))).
  { apply Forall_concat. apply Forall_map.
    revert HF. apply Forall_impl. exact hex_digits_digit. }
  destruct (List.concat (map hex_digits x)) as [|d ds] eqn:E.
  - destruct x as [|b x]; [contradiction|]. exfalso.
    cbn [map List.concat] in E. unfold hex_digits in E.
    destruct (b <? 16); discriminate.
  - cbn [map]. rewrite int_of_str_chars by (inversion HD; lia).
    apply (parse_digits_chars 16 (d :: ds) 0 HD).
Qed.

Lemma le_bytes_0 (n : nat) : Py.le_bytes n 0 = repeat 0 n.
Proof. induction n as [|n IH]; [reflexivity|]. cbn. now rewrite IH. Qed.

Lemma ragged_leading_zeros (k : nat) (x : list Z) :
  ragged_hex_value (repeat 0 k ++ x) = ragged_hex_value x.
Proof.
  unfold ragged_hex_value. rewrite fold_left_app. f_equal.
  induction k as [|k IH]; [reflexivity|]. cbn [repeat fold_left].
  exact IH.
Qed.

End Decoder.

(** X7: on a byte string [bcd_to_int] raises [ValueError] when the string
    is empty and otherwise returns a number that is not negative: the
    bytes read in base 16, a byte below [0x10] counting for one digit and
    any other byte for two.  Leading zero bytes do not change the
    result. *)
Theorem bcd_to_int_behaviour (x : list Z) :
  Forall (fun b => 0 <= b < 256) x ->
  bcd_to_int [] = Raise ValueError
  /\ (x <> [] ->
      bcd_to_int x = Ok (ragged_hex_value x)
      /\ 0 <= ragged_hex_value x <= Spec.be_value x
      /\ forall k, bcd_to_int (repeat 0 k ++ x) = bcd_to_int x).
Proof.
  intros HF. split; [reflexivity|]. intros Hne.
  split; [apply bcd_to_int_value; assumption | split].
  - unfold ragged_hex_value, Spec.be_value.
    assert (H : forall a c, 0 <= a <= c ->
      0 <= fold_left (fun a b => a * (if b <? 16 then 16 else 256) + b) x a
        <= fold_left (fun acc b => acc * 256 + b) x c).
    { clear Hne. induction HF as [|b x Hb _ IH]; intros a c Hac;
        cbn [fold_left]; [exact Hac|].
      apply IH. destruct (b <? 16); nia. }
    apply H. lia.
  - intros k. rewrite !bcd_to_int_value; try assumption.
    + now rewrite ragged_leading_zeros.
    + apply Forall_app. split; [|exact HF].
      apply Forall_forall. intros z Hz. apply repeat_spec in Hz. subst z.
      unfold byte. lia.
    + destruct k; [exact Hne | discriminate].
Qed.

Lemma bcd_to_int_behaviour_witness :
  bcd_to_int [] = Raise ValueError
  /\ ([0x10; 0x05; 0xff] <> [] ->
      bcd_to_int [0x10; 0x05; 0xff] = Ok (ragged_hex_value [0x10; 0x05; 0xff])
      /\ 0 <= ragged_hex_value [0x10; 0x05; 0xff]
           <= Spec.be_value [0x10; 0x05; 0xff]
      /\ forall k, bcd_to_int (repeat 0 k ++ [0x10; 0x05; 0xff])
                   = bcd_to_int [0x10; 0x05; 0xff]).
Proof.
  apply (bcd_to_int_behaviour [0x10; 0x05; 0xff]).
  repeat constructor; lia.
Defined.

(** X8: encoding a value below 100 at any width of at least one byte and
    decoding the bytes gives [i + 6 * (i / 10)]: the value itself for
    [i <= 9], and more than the value from 10 on. *)
Theorem bcd_round_trip_below_100 (i w : Z) :
  0 <= i < 100 -> 1 <= w ->
  exists bs, int_to_bcd i w = Ok bs
             /\ bcd_to_int bs = Ok (i + 6 * (i / 10))
             /\ (bcd_to_int bs = Ok i <-> i <= 9).
Proof.
  intros Hi Hw.
  assert (Hfit : i < 10 ^ (2 * w)).
  { assert (10 ^ 2 <= 10 ^ (2 * w)) by (apply Z.pow_le_mono_r; lia).
    change (10 ^ 2) with 100 in *. lia. }
  rewrite int_to_bcd_fits by lia. eexists. split; [reflexivity|].
  destruct (magnitude_low_byte i ltac:(lia)) as [E1 E2].
  assert (Hq : 0 <= i / 10 < 10).
  { split; [apply Z.div_pos; lia | apply Z.div_lt_upper_bound; lia]. }
  rewrite (Z.div_small i 100) in E2 by lia.
  change (Spec.magnitude 0) with 0 in E2.
  rewrite (Z.mod_small (i / 10)) in E1 by lia.
  destruct (Z.to_nat w) as [|n] eqn:En; [lia|].
  cbn [Py.le_bytes]. rewrite E1, E2, le_bytes_0. cbn [rev].
  rewrite rev_repeat.
  assert (Hb : byte (16 * (i / 10) + i mod 10)).
  { pose proof (Z.mod_pos_bound i 10 ltac:(lia)). unfold byte. lia. }
  assert (Ev : bcd_to_int (repeat 0 n ++ [16 * (i / 10) + i mod 10])
               = Ok (i + 6 * (i / 10))).
  { rewrite bcd_to_int_value.
    - rewrite ragged_leading_zeros. unfold ragged_hex_value.
      cbn [fold_left]. f_equal.
      pose proof (Z.div_mod i 10 ltac:(lia)). lia.
    - apply Forall_app. split; [|constructor; [exact Hb | constructor]].
      apply Forall_forall. intros z Hz. apply repeat_spec in Hz. subst z.
      unfold byte. lia.
    - destruct n; discriminate. }
  split; [exact Ev|]. rewrite Ev. split.
  - intros E. assert (E' : i + 6 * (i / 10) = i) by congruence.
    pose proof (Z.div_mod i 10 ltac:(lia)).
    pose proof (Z.mod_pos_bound i 10 ltac:(lia)). lia.
  - intros Hle. rewrite (Z.div_small i 10) by lia. f_equal. lia.
Qed.

Lemma bcd_round_trip_below_100_witness :
  exists bs, int_to_bcd 12 4 = Ok bs
             /\ bcd_to_int bs = Ok (12 + 6 * (12 / 10))
             /\ (bcd_to_int bs = Ok 12 <-> 12 <= 9).
Proof. apply (bcd_round_trip_below_100 12 4); lia. Defined.

(** ** Meters, further *)

Section MetersFurther.

Import Meter.

Lemma apply_fields (m : SASMeter) (o : op) :
  id (apply m o) = id m /\ size (apply m o) = size m
  /\ _name (apply m o) = _name m /\ description (apply m o) = description m.
Proof. destruct o; repeat split. Qed.

Lemma run_fields (os : list op) (m : SASMeter) :
  id (run m os) = id m /\ size (run m os) = size m
  /\ _name (run m os) = _name m /\ description (run m os) = description m.
Proof.
  unfold run. revert m. induction os as [|o os IH]; intros m; cbn [fold_left].
  - repeat split.
  - destruct (IH (apply m o)) as (A & B & C & D).
    destruct (apply_fields m o) as (A' & B' & C' & D').
    repeat split; congruence.
Qed.

Lemma value_apply (m : SASMeter) (o : op) :
  value (apply m o)
  = match o with
    | Increment n => value m + Z.max n 0
    | Set_ n => Z.max n (value m)
    | Clear => 0
    end.
Proof. destruct o; cbn [apply]; [apply value_iadd | apply value_set_value | reflexivity]. Qed.

Lemma run_value_ext (os : list op) (m m' : SASMeter) :
  value m = value m' -> value (run m os) = value (run m' os).
Proof.
  unfold run. revert m m'.
  induction os as [|o os IH]; intros m m' E; cbn [fold_left]; [exact E|].
  apply IH. rewrite !value_apply, E. reflexivity.
Qed.

Lemma run_increments (ns : list Z) (m : SASMeter) :
  value (run m (map Increment ns))
  = value m + fold_right (fun n acc => Z.max n 0 + acc) 0 ns.
Proof.
  unfold run. revert m.
  induction ns as [|n ns IH]; intros m; cbn [map fold_left fold_right]; [lia|].
  rewrite IH. change (apply m (Increment n)) with (__iadd__ m n).
  rewrite value_iadd. lia.
Qed.

Lemma run_sets (ns : list Z) (m : SASMeter) :
  value (run m (map Set_ ns)) = fold_right Z.max (value m) ns.
Proof.
  unfold run. revert m.
  induction ns as [|n ns IH]; intros m; cbn [map fold_left fold_right];
    [reflexivity|].
  rewrite IH. change (apply m (Set_ n)) with (set_value m n).
  rewrite value_set_value.
  clear IH. revert n. induction ns as [|k ns IH]; intros n; cbn [fold_right]; [lia|].
  rewrite IH. lia.
Qed.

Lemma horner_leading_zeros (b : Z) (k : nat) (ds : list Z) :
  horner b (repeat 0 k ++ ds) 0 = horner b ds 0.
Proof.
  unfold horner. rewrite fold_left_app. f_equal.
  induction k as [|k IH]; [reflexivity|]. cbn [repeat fold_left].
  rewrite Z.mul_0_l. exact IH.
Qed.

Lemma rjust0_digits (w : nat) (ds : list Z) :
  Py.rjust0 w (map Py.digit_char ds)
  = map Py.digit_char (repeat 0 (w - List.length ds) ++ ds).
Proof.
  unfold Py.rjust0. rewrite length_map, map_app, map_repeat. reflexivity.
Qed.

Lemma str_parses_back (m : SASMeter) :
  0 <= value m -> Py.int_of_str 10 (__str__ m) = Ok (value m).
Proof.
  intros Hv. unfold __str__.
  rewrite str_of_int_digits, rjust0_digits by exact Hv.
  pose proof (digits_digit 10 ltac:(lia) (value m) Hv) as HD.
  destruct (digits_head 10 ltac:(lia) (value m) Hv) as (d & ds & E & Hd).
  set (z := repeat 0 _).
  assert (HF : Forall (fun d => 0 <= d < 16 /\ d < 10)
                 (z ++ Py.digits 10 (value m))).
  { apply Forall_app. split.
    - apply Forall_forall. intros x Hx. apply repeat_spec in Hx. lia.
    - revert HD. apply Forall_impl. unfold digit. lia. }
  rewrite <- (horner_digits 10 ltac:(lia) (value m) Hv) at 2.
  rewrite <- (horner_leading_zeros 10 (List.length z)).
  replace (repeat 0 (List.length z)) with z
    by (unfold z; now rewrite repeat_length).
  destruct (z ++ Py.digits 10 (value m)) as [|c cs] eqn:Ez.
  - rewrite E in Ez. destruct z; discriminate.
  - cbn [map]. rewrite int_of_str_chars by (inversion HF; lia).
    apply (parse_digits_chars 10 (c :: cs) 0 HF).
Qed.

Lemma str_length_max (m : SASMeter) :
  Z.of_nat (List.length (__str__ m))
  = Z.max (size m * 2) (Z.of_nat (List.length (Py.str_of_int (value m)))).
Proof.
  unfold __str__, Py.rjust0. rewrite length_app, repeat_length.
  assert (1 <= List.length (Py.str_of_int (value m)))%nat.
  { unfold Py.str_of_int, Py.show. destruct (value m <? 0).
    - cbn [List.length]. lia.
    - rewrite length_map. unfold Py.digits. rewrite length_rev.
      cbn [Py.digits_le]. destruct (_ <? 10); cbn [List.length]; lia. }
  lia.
Qed.

Lemma hex2_nibbles (a c : Z) :
  0 <= a -> 0 <= c < 16 ->
  Spec.hex2 (16 * a + c) = [Py.digit_char a; Py.digit_char c].
Proof.
  intros Ha Hc. unfold Spec.hex2.
  replace ((16 * a + c) / 16) with a
    by (apply Z.div_unique_pos with (r := c); lia).
  replace ((16 * a + c) mod 16) with c
    by (apply Z.mod_unique_pos with (q := a); lia).
  reflexivity.
Qed.

Lemma hex_of_packed (v : Z) (w : nat) :
  0 <= v ->
  List.concat (map Spec.hex2 (rev (Py.le_bytes w (Spec.magnitude v))))
  = map Py.digit_char
      (rev (map (fun j => (v / 10 ^ Z.of_nat j) mod 10) (seq 0 (2 * w)))).
Proof.
  intros Hv. rewrite le_bytes_magnitude by exact Hv. cbv zeta.
  induction w as [|w IH]; [reflexivity|].
  rewrite seq_S, map_app, rev_app_distr.
  cbn [map rev app List.concat plus]. cbv zeta. rewrite IH. clear IH.
  replace (2 * S w)%nat with (2 * w + 2)%nat by lia.
  rewrite seq_app, map_app, rev_app_distr, map_app.
  cbn [seq map rev app plus].
  rewrite hex2_nibbles.
  - cbn [app]. do 2 f_equal; [f_equal; f_equal; f_equal; lia|].
    f_equal. do 3 f_equal. lia.
  - apply Z.mod_pos_bound. lia.
  - pose proof (Z.mod_pos_bound (v / 10 ^ (2 * Z.of_nat w)) 10 ltac:(lia)).
    lia.
Qed.

End MetersFurther.

(** X9: for a meter whose value is not negative and has at most 4300
    decimal digits (the interpreter's limit on [str] of an int), the
    length of [str(self)] is the larger of [2 * size] and the number of
    digits of the value, so it is exactly [2 * size] characters whenever
    the value fits the width; and when [2 * size] is at most 4300 as well
    (the limit on [int] of a string), [str(self)] parses back, in base 10,
    to the value. *)
Theorem meter_str_round_trip (m : SASMeter) :
  0 <= Meter.value m -> Meter.value m < 10 ^ max_str_digits ->
  (size m * 2 <= max_str_digits ->
   Py.int_of_str 10 (Meter.__str__ m) = Ok (Meter.value m))
  /\ Z.of_nat (List.length (Meter.__str__ m))
     = Z.max (size m * 2)
         (Z.of_nat (List.length (Py.str_of_int (Meter.value m))))
  /\ (1 <= size m -> Meter.value m < 10 ^ (2 * size m) ->
      Z.of_nat (List.length (Meter.__str__ m)) = size m * 2).
Proof.
  intros Hv _. split; [intros _; apply str_parses_back, Hv | split].
  - apply str_length_max.
  - intros Hs Hlt. rewrite str_length_max.
    rewrite str_of_int_digits, length_map by exact Hv.
    destruct (Z.eq_dec (Meter.value m) 0) as [E|Hne].
    + rewrite E. change (List.length (Py.digits 10 0)) with 1%nat. lia.
    + pose proof (digits_length 10 ltac:(lia) (Meter.value m) (2 * size m)
                    ltac:(lia) ltac:(lia)). lia.
Qed.

Lemma meter_str_round_trip_witness :
  Py.int_of_str 10 (Meter.__str__ (Meter.set_value (Meter.__init__ 0 4) 1234))
  = Ok 1234
  /\ Z.of_nat (List.length
                 (Meter.__str__ (Meter.set_value (Meter.__init__ 0 4) 1234)))
     = 4 * 2.
Proof.
  destruct (meter_str_round_trip (Meter.set_value (Meter.__init__ 0 4) 1234))
    as (Hp & _ & Hl); [cbn; lia | reflexivity |].
  split; [apply Hp; vm_compute; discriminate|].
  apply Hl; [cbn; lia | reflexivity].
Defined.

(** X10: for a meter of size at least 1 whose value fits and has at
    most 4300 decimal digits (the interpreter's limit on [str] of an
    int), the bytes [bytes(self)] returns, printed two hexadecimal characters to a byte,
    spell [str(self)]: the zero-padded decimal digits of the value. *)
Theorem meter_bytes_spell_str (m : SASMeter) :
  1 <= size m -> 0 <= Meter.value m < 10 ^ (2 * size m) ->
  Meter.value m < 10 ^ max_str_digits ->
  exists bs, Meter.__bytes__ m = Ok bs
             /\ List.concat (map Spec.hex2 bs) = Meter.__str__ m.
Proof.
  intros Hs [H0 H1] _. unfold Meter.__bytes__, Meter.__str__.
  rewrite int_to_bcd_fits by lia. eexists. split; [reflexivity|].
  rewrite hex_of_packed by exact H0.
  rewrite str_of_int_digits, rjust0_digits by exact H0. f_equal.
  replace (Z.to_nat (size m * 2)) with (S (2 * Z.to_nat (size m) - 1)) by lia.
  rewrite padded_digits.
  - do 3 f_equal. lia.
  - split; [exact H0|].
    replace (Z.of_nat (S (2 * Z.to_nat (size m) - 1))) with (2 * size m) by lia.
    exact H1.
Qed.

Lemma meter_bytes_spell_str_witness :
  exists bs,
    Meter.__bytes__ (Meter.set_value (Meter.__init__ 0 4) 1234) = Ok bs
    /\ List.concat (map Spec.hex2 bs)
       = Meter.__str__ (Meter.set_value (Meter.__init__ 0 4) 1234).
Proof.
  apply (meter_bytes_spell_str (Meter.set_value (Meter.__init__ 0 4) 1234));
    [cbn; lia | split; [cbn; lia | reflexivity] | reflexivity].
Defined.

(** X11: a meter built by the constructor and changed by any run of
    increment, set and clear calls keeps its id and its size, and its
    value is never negative; so with a size that is not negative, and
    as long as the value has at most 4300 decimal digits (the
    interpreter's limit on [str] of an int), [bytes(self)] either returns
    [size] bytes or raises [OverflowError], never [ValueError]. *)
Theorem meter_reachable (i sz : Z) (os : list Meter.op) :
  id (Meter.run (Meter.__init__ i sz) os) = i
  /\ size (Meter.run (Meter.__init__ i sz) os) = sz
  /\ 0 <= Meter.value (Meter.run (Meter.__init__ i sz) os)
  /\ (0 <= sz ->
      Meter.value (Meter.run (Meter.__init__ i sz) os) < 10 ^ max_str_digits ->
      Meter.__bytes__ (Meter.run (Meter.__init__ i sz) os)
      = Raise OverflowError
      \/ exists bs,
           Meter.__bytes__ (Meter.run (Meter.__init__ i sz) os) = Ok bs
           /\ Z.of_nat (List.length bs) = sz).
Proof.
  destruct (run_fields os (Meter.__init__ i sz)) as (Hi & Hs & _ & _).
  cbn [id size Meter.__init__] in Hi, Hs.
  pose proof (run_nonneg os (Meter.__init__ i sz) (Z.le_refl 0)) as Hv.
  split; [exact Hi | split; [exact Hs | split; [exact Hv|]]].
  intros Hsz _. unfold Meter.__bytes__. rewrite Hs.
  set (v := Meter.value _) in *.
  destruct (Z_lt_le_dec v (10 ^ (2 * sz))) as [Hlt|Hge].
  - right. rewrite int_to_bcd_fits by assumption. eexists.
    split; [reflexivity|]. rewrite length_rev, le_bytes_length. lia.
  - left. apply int_to_bcd_overflow; assumption.
Qed.

Lemma meter_reachable_witness :
  Meter.__bytes__
    (Meter.run (Meter.__init__ 3 1)
       [Meter.Increment 60; Meter.Clear; Meter.Set_ 50; Meter.Increment 55])
  = Raise OverflowError
  \/ exists bs,
       Meter.__bytes__
         (Meter.run (Meter.__init__ 3 1)
            [Meter.Increment 60; Meter.Clear; Meter.Set_ 50;
             Meter.Increment 55]) = Ok bs
       /\ Z.of_nat (List.length bs) = 1.
Proof.
  apply (meter_reachable 3 1
           [Meter.Increment 60; Meter.Clear; Meter.Set_ 50;
            Meter.Increment 55]).
  - lia.
  - reflexivity.
Defined.

(** X12: a run of increments adds up the positive deltas and drops the
    others; a run of sets leaves the largest of the values set and the
    value before. *)
Theorem meter_runs_compose (m : SASMeter) (ns : list Z) :
  Meter.value (Meter.run m (map Meter.Increment ns))
  = Meter.value m + fold_right (fun n acc => Z.max n 0 + acc) 0 ns
  /\ Meter.value (Meter.run m (map Meter.Set_ ns))
     = fold_right Z.max (Meter.value m) ns.
Proof. split; [apply run_increments | apply run_sets]. Qed.

(** X13: a clear forgets everything before it.  The value after a run
    with a clear in it is the value the calls after that clear give a
    newly built meter. *)
Theorem meter_clear_forgets (m : SASMeter) (pre post : list Meter.op)
        (i sz : Z) :
  Meter.value (Meter.run m (pre ++ Meter.Clear :: post))
  = Meter.value (Meter.run (Meter.__init__ i sz) post).
Proof.
  unfold Meter.run at 1. rewrite fold_left_app. cbn [fold_left Meter.apply].
  apply run_value_ext. reflexivity.
Qed.

(** ** The registry *)

Section Registry.

Import Game.

Lemma str_eqb_eq (s t : Py.str) : str_eqb s t = true <-> s = t.
Proof.
  unfold str_eqb. destruct (list_eq_dec ascii_dec s t); split;
    intros; congruence.
Qed.

Lemma str_eqb_neq (s t : Py.str) : str_eqb s t = false <-> s <> t.
Proof.
  unfold str_eqb. destruct (list_eq_dec ascii_dec s t); split;
    intros; congruence.
Qed.

Lemma dict_get_set (d : list (Py.str * SASMeter)) (k k' : Py.str)
      (v : SASMeter) :
  dict_get (dict_set d k v) k'
  = if str_eqb k k' then Some v else dict_get d k'.
Proof.
  induction d as [|[k0 v0] d IH]; cbn [dict_set dict_get].
  - reflexivity.
  - destruct (str_eqb k0 k) eqn:E0; cbn [dict_get].
    + apply str_eqb_eq in E0. subst k0.
      destruct (str_eqb k k'); reflexivity.
    + rewrite IH. destruct (str_eqb k0 k') eqn:E1; [|reflexivity].
      apply str_eqb_eq in E1. subst k0. apply str_eqb_neq in E0.
      destruct (str_eqb k k') eqn:E2; [|reflexivity].
      apply str_eqb_eq in E2. congruence.
Qed.

Lemma dict_set_in (d : list (Py.str * SASMeter)) (k : Py.str) (v : SASMeter)
      (p : Py.str * SASMeter) :
  In p (dict_set d k v) -> p = (k, v) \/ In p d.
Proof.
  induction d as [|[k0 v0] d IH]; cbn [dict_set].
  - intros [<-|[]]. now left.
  - destruct (str_eqb k0 k); cbn [In].
    + intros [<-|H]; [now left | right; now right].
    + intros [<-|H]; [right; now left|].
      destruct (IH H); [now left | right; now right].
Qed.

Lemma dict_set_keys (d : list (Py.str * SASMeter)) (k : Py.str)
      (v : SASMeter) (k' : Py.str) :
  In k' (map fst (dict_set d k v)) <-> k' = k \/ In k' (map fst d).
Proof.
  induction d as [|[k0 v0] d IH]; cbn [dict_set map fst In].
  - intuition congruence.
  - destruct (str_eqb k0 k) eqn:E; cbn [map fst In].
    + apply str_eqb_eq in E. subst k0. intuition congruence.
    + rewrite IH. intuition congruence.
Qed.

Lemma dict_set_nodup (d : list (Py.str * SASMeter)) (k : Py.str)
      (v : SASMeter) :
  NoDup (map fst d) -> NoDup (map fst (dict_set d k v)).
Proof.
  induction d as [|[k0 v0] d IH]; cbn [dict_set map fst]; intros H.
  - repeat constructor. intros [].
  - inversion H as [|? ? Hn Hd]; subst.
    destruct (str_eqb k0 k) eqn:E; cbn [map fst].
    + apply str_eqb_eq in E. subst k0. now constructor.
    + apply str_eqb_neq in E. constructor; [|apply IH, Hd].
      rewrite dict_set_keys. intuition congruence.
Qed.

Lemma dict_get_in (d : list (Py.str * SASMeter)) (k : Py.str) (v : SASMeter) :
  dict_get d k = Some v -> In (k, v) d.
Proof.
  induction d as [|[k0 v0] d IH]; cbn [dict_get]; [discriminate|].
  destruct (str_eqb k0 k) eqn:E.
  - apply str_eqb_eq in E. subst k0. intros [= <-]. now left.
  - intros H. right. apply IH, H.
Qed.

Lemma dict_get_none (d : list (Py.str * SASMeter)) (k : Py.str) :
  dict_get d k = None <-> ~ In k (map fst d).
Proof.
  induction d as [|[k0 v0] d IH]; cbn [dict_get map fst In]; [tauto|].
  destruct (str_eqb k0 k) eqn:E.
  - apply str_eqb_eq in E. subst k0. split; [discriminate | tauto].
  - apply str_eqb_neq in E. rewrite IH. tauto.
Qed.

Lemma lstrip_no_underscore (s t : Py.str) :
  Py.lstrip_underscore s <> "_"%char :: t.
Proof.
  induction s as [|c s IH]; cbn [Py.lstrip_underscore]; [discriminate|].
  destruct (ascii_dec c "_"%char) as [->|Hne]; [exact IH|].
  assert (E : Py.lstrip_underscore (c :: s) = c :: s).
  { cbn [Py.lstrip_underscore].
    destruct c as [[] [] [] [] [] [] [] []]; try reflexivity.
    now contradiction Hne. }
  cbn [Py.lstrip_underscore] in E. rewrite E. congruence.
Qed.

Lemma entry_key_shape (e : catalog_entry) :
  (List.length (entry_key e) <= 50)%nat
  /\ forall t, entry_key e <> "_"%char :: t.
Proof.
  destruct e as [[[m0 m1] m2] m3]. unfold entry_key, Py.slice_to. split.
  - apply firstn_le_length.
  - intros t E. destruct (Py.lstrip_underscore m2) as [|c s] eqn:El;
      [discriminate|].
    cbn [firstn] in E. injection E as -> _.
    exact (lstrip_no_underscore m2 s El).
Qed.

(** One pass of the loop of [__init__]. *)
Lemma init_loop (catalog : list catalog_entry) :
  forall d,
    foldM
      (fun ms (m : catalog_entry) =>
         let '(m0, m1, m2, m3) := m in
         let this_m := Meter.__init__ m0 m1 in
         let this_m := Meter.set_name this_m (Py.lstrip_underscore m2) in
         let this_m := Meter.set_description this_m m3 in
         let ms := setattr ms (Meter.name this_m) this_m in
         meters_setitem ms (Meter.name this_m) this_m)
      catalog (Dict d)
    = if existsb (fun e => str_eqb (entry_key e) (Py.lit "meters")) catalog
      then Raise TypeError
      else Ok (Dict (build catalog d)).
Proof.
  induction catalog as [|[[[m0 m1] m2] m3] c IH]; intros d; [reflexivity|].
  cbn [foldM existsb]. cbv zeta.
  assert (En : Meter.name
                 (Meter.set_description
                    (Meter.set_name (Meter.__init__ m0 m1)
                       (Py.lstrip_underscore m2)) m3)
               = entry_key (m0, m1, m2, m3)) by reflexivity.
  rewrite En. unfold setattr.
  destruct (str_eqb (entry_key (m0, m1, m2, m3)) (Py.lit "meters"));
    cbn [meters_setitem bind orb]; [reflexivity|].
  rewrite IH. reflexivity.
Qed.

(** A catalog without the name [meters] builds a game. *)
Lemma init_ok (catalog : list catalog_entry) :
  (forall e, In e catalog -> entry_key e <> Py.lit "meters") ->
  __init__ catalog = Ok (mkSASGame 0 0 catalog (build catalog [])).
Proof.
  intros H. unfold __init__. rewrite init_loop.
  destruct (existsb _ catalog) eqn:E; [|reflexivity].
  apply existsb_exists in E as (e & He & Ee).
  apply str_eqb_eq in Ee. now apply H in He.
Qed.

(** A catalog with the name [meters] in it builds none. *)
Lemma init_error (catalog : list catalog_entry) (e : catalog_entry) :
  In e catalog -> entry_key e = Py.lit "meters" ->
  __init__ catalog = Raise TypeError.
Proof.
  intros He Ee. unfold __init__. rewrite init_loop.
  replace (existsb _ catalog) with true; [reflexivity|].
  symmetry. apply existsb_exists. exists e. split; [exact He|].
  now apply str_eqb_eq.
Qed.

Lemma build_nodup (catalog : list catalog_entry) :
  forall d, NoDup (map fst d) -> NoDup (map fst (build catalog d)).
Proof.
  unfold build. induction catalog as [|e c IH]; intros d H; cbn [fold_left];
    [exact H|].
  apply IH, dict_set_nodup, H.
Qed.

Lemma build_in (catalog : list catalog_entry) :
  forall d p, In p (build catalog d) ->
    In p d \/ exists e, In e catalog /\ p = (entry_key e, entry_meter e).
Proof.
  unfold build. induction catalog as [|e c IH]; intros d p H; cbn [fold_left] in H.
  - now left.
  - apply IH in H as [H|(e' & He' & ->)].
    + apply dict_set_in in H as [->|H]; [|now left].
      right. exists e. split; [now left | reflexivity].
    + right. exists e'. split; [now right | reflexivity].
Qed.

Lemma build_get_other (catalog : list catalog_entry) (k : Py.str) :
  (forall e, In e catalog -> entry_key e <> k) ->
  forall d, dict_get (build catalog d) k = dict_get d k.
Proof.
  unfold build. induction catalog as [|e c IH]; intros Hk d; cbn [fold_left];
    [reflexivity|].
  rewrite IH by (intros e' He'; apply Hk; now right).
  rewrite dict_get_set.
  destruct (str_eqb (entry_key e) k) eqn:E; [|reflexivity].
  apply str_eqb_eq in E. exfalso. apply (Hk e); [now left | exact E].
Qed.

Lemma build_get_last (pre post : list catalog_entry) (e : catalog_entry) :
  (forall e', In e' post -> entry_key e' <> entry_key e) ->
  forall d, dict_get (build (pre ++ e :: post) d) (entry_key e)
            = Some (entry_meter e).
Proof.
  intros Hpost d. unfold build. rewrite fold_left_app. cbn [fold_left].
  fold (build pre d).
  change (fold_left _ post ?d') with (build post d').
  rewrite build_get_other by exact Hpost.
  rewrite dict_get_set.
  destruct (str_eqb (entry_key e) (entry_key e)) eqn:E; [reflexivity|].
  apply str_eqb_neq in E. contradiction.
Qed.

End Registry.

(** X14: [SASGame(catalog)] raises [TypeError] when an entry of the
    catalog has the name [meters] (once its leading underscores are
    stripped): [setattr] then replaces the dict and the item assignment
    after it fails.  For every other catalog it builds a game that starts
    with both counters at 0 and a dict without repeated keys, in which
    every meter is filed under its own name, a name of at most 50
    characters that does not begin with an underscore, has value 0 and
    carries the id, size and description of a catalog entry. *)
Theorem game_init_invariant (catalog : list catalog_entry) :
  ((exists e, In e catalog /\ entry_key e = Py.lit "meters") ->
   Game.__init__ catalog = Raise TypeError)
  /\ ((forall e, In e catalog -> entry_key e <> Py.lit "meters") ->
      exists g,
        Game.__init__ catalog = Ok g
        /\ _v_id g = 0
        /\ _v_seq g = 0
        /\ NoDup (map fst (meters g))
        /\ forall k m, In (k, m) (meters g) ->
             k = Meter.name m
             /\ (List.length k <= 50)%nat
             /\ (forall t, k <> "_"%char :: t)
             /\ Meter.value m = 0
             /\ exists m0 m1 m2 m3,
                  In (m0, m1, m2, m3) catalog
                  /\ id m = m0 /\ size m = m1 /\ description m = m3
                  /\ k = Py.slice_to (Py.lstrip_underscore m2) 50).
Proof.
  split.
  - intros (e & He & Ee). exact (init_error catalog e He Ee).
  - intros Hno. eexists. split; [exact (init_ok catalog Hno)|].
    cbn [_v_id _v_seq meters].
    split; [reflexivity | split; [reflexivity | split]].
    + apply build_nodup. constructor.
    + intros k m H. apply build_in in H as [[]|(e & He & [= -> ->])].
      destruct (entry_key_shape e) as [Hl Hu].
      destruct e as [[[m0 m1] m2] m3].
      split; [reflexivity | split; [exact Hl | split; [exact Hu|]]].
      split; [reflexivity|].
      exists m0, m1, m2, m3. repeat split. exact He.
Qed.

Lemma game_init_invariant_witness :
  Game.__init__ [(0, 4, Py.lit "coin_in", []); (1, 4, Py.lit "__meters", [])]
  = Raise TypeError
  /\ exists g,
       Game.__init__ [(0, 4, Py.lit "__coin_in", [])] = Ok g
       /\ _v_id g = 0
       /\ _v_seq g = 0
       /\ NoDup (map fst (meters g))
       /\ forall k m, In (k, m) (meters g) ->
            k = Meter.name m
            /\ (List.length k <= 50)%nat
            /\ (forall t, k <> "_"%char :: t)
            /\ Meter.value m = 0
            /\ exists m0 m1 m2 m3,
                 In (m0, m1, m2, m3) [(0, 4, Py.lit "__coin_in", [])]
                 /\ id m = m0 /\ size m = m1 /\ description m = m3
                 /\ k = Py.slice_to (Py.lstrip_underscore m2) 50.
Proof.
  split.
  - apply (game_init_invariant
             [(0, 4, Py.lit "coin_in", []); (1, 4, Py.lit "__meters", [])]).
    exists (1, 4, Py.lit "__meters", []). split; [right; left|]; reflexivity.
  - apply (game_init_invariant [(0, 4, Py.lit "__coin_in", [])]).
    intros e [<-|[]]. vm_compute. discriminate.
Defined.

(** X15: for a catalog without the name [meters], looking a name up in
    the dict of the game [SASGame(catalog)] builds finds the meter of the
    last catalog entry filed under that name, so an entry whose name is
    taken again later in the catalog is lost, and finds nothing for a name
    no entry is filed under. *)
Theorem game_init_lookup (pre post : list catalog_entry) (e : catalog_entry)
        (k : Py.str) :
  (forall e', In e' (pre ++ e :: post) -> entry_key e' <> Py.lit "meters") ->
  exists g,
    Game.__init__ (pre ++ e :: post) = Ok g
    /\ ((forall e', In e' post -> entry_key e' <> entry_key e) ->
        dict_get (meters g) (entry_key e) = Some (entry_meter e))
    /\ ((forall e', In e' (pre ++ e :: post) -> entry_key e' <> k) ->
        dict_get (meters g) k = None).
Proof.
  intros Hno. eexists. split; [exact (init_ok _ Hno)|]. cbn [meters]. split.
  - intros H. apply build_get_last, H.
  - intros H. rewrite build_get_other by exact H. reflexivity.
Qed.

Lemma game_init_lookup_witness :
  exists g,
    Game.__init__
      ([(0, 4, Py.lit "coin_in", [])]
       ++ (1, 2, Py.lit "_coin_in", []) :: [(2, 4, Py.lit "x", [])]) = Ok g
    /\ ((forall e', In e' [(2, 4, Py.lit "x", [])] ->
         entry_key e' <> entry_key (1, 2, Py.lit "_coin_in", [])) ->
        dict_get (meters g) (entry_key (1, 2, Py.lit "_coin_in", []))
        = Some (entry_meter (1, 2, Py.lit "_coin_in", [])))
    /\ ((forall e', In e' ([(0, 4, Py.lit "coin_in", [])]
                          ++ (1, 2, Py.lit "_coin_in", [])
                             :: [(2, 4, Py.lit "x", [])]) ->
         entry_key e' <> Py.lit "b") ->
        dict_get (meters g) (Py.lit "b") = None).
Proof.
  apply (game_init_lookup [(0, 4, Py.lit "coin_in", [])]
           [(2, 4, Py.lit "x", [])] (1, 2, Py.lit "_coin_in", [])
           (Py.lit "b")).
  intros e' [<-|[<-|[<-|[]]]]; vm_compute; discriminate.
Defined.

(** ** The validation number, further *)

Section ValidationFurther.

Import Game.

Ltac run_lists' :=
  cbn [app repeat firstn skipn Nat.sub rev nth List.length seq map].

Lemma lor_check_value (d s : Z) :
  0 <= d <= 1 -> Z.lor d (Z.shiftl (s mod 5) 1) = d + 2 * (s mod 5).
Proof.
  intros Hd. pose proof (Z.mod_pos_bound s 5 ltac:(lia)) as Hc.
  set (c := s mod 5) in *.
  assert (Ed : d = 0 \/ d = 1) by lia.
  assert (Ec : c = 0 \/ c = 1 \/ c = 2 \/ c = 3 \/ c = 4) by lia.
  destruct Ed as [-> | ->];
    destruct Ec as [-> | [-> | [-> | [-> | ->]]]]; reflexivity.
Qed.

Lemma group_checks_leading (d s : Z) (rest : list Z) :
  0 <= d <= 1 -> s = d + fold_right Z.add 0 rest ->
  group_checks (Z.lor d (Z.shiftl (s mod 5) 1)) rest.
Proof.
  intros Hd Hs. unfold group_checks. rewrite lor_check_value by exact Hd.
  pose proof (Z.mod_pos_bound s 5 ltac:(lia)) as Hc.
  replace ((d + 2 * (s mod 5)) mod 2) with d
    by (apply Z.mod_unique_pos with (q := s mod 5); lia).
  replace ((d + 2 * (s mod 5)) / 2) with (s mod 5)
    by (apply Z.div_unique_pos with (r := d); lia).
  now rewrite Hs.
Qed.

Lemma digit_character_char (d : Z) :
  decimal d -> Spec.digit_character d = Py.digit_char d
               /\ decimal_char (Spec.digit_character d).
Proof.
  intros H. unfold decimal in H. split.
  - unfold Py.digit_char. destruct (Z.ltb_spec d 10); [reflexivity | lia].
  - unfold decimal_char, Spec.digit_character.
    rewrite nat_ascii_embedding by lia. lia.
Qed.

(** The sixteen digits of the output, in the order they are printed. *)
Lemma validation_number_groups (seq id : Z) :
  exists x0 r0 x1 r1,
    rev (Spec.injected seq id) = x0 :: r0 ++ x1 :: r1
    /\ List.length r0 = 7%nat /\ List.length r1 = 7%nat
    /\ Forall decimal (x0 :: r0 ++ x1 :: r1)
    /\ group_checks x0 r0 /\ group_checks x1 r1.
Proof.
  destruct (numbers_counter seq id) as [Hn0 Hn1].
  pose proof (injected_decimal _ _ Hn0 Hn1) as HF.
  unfold Spec.injected.
  destruct (Spec.numbers seq id) as [n0 n1]. cbn [fst snd] in *.
  apply Forall_rev in HF. revert HF.
  pose proof (leading_digit n0 Hn0) as L0.
  pose proof (leading_digit n1 Hn1) as L1.
  unfold Spec.inject, Spec.update, Spec.dec8, Spec.total. cbv zeta.
  run_lists'. cbn [fold_right]. intros HF.
  match goal with
  | |- exists x0 r0 x1 r1,
        (?a :: ?b1 :: ?b2 :: ?b3 :: ?b4 :: ?b5 :: ?b6 :: ?b7 :: ?c :: ?t)
        = _ /\ _ =>
      exists a, [b1; b2; b3; b4; b5; b6; b7], c, t
  end.
  split; [reflexivity|].
  split; [reflexivity | split; [reflexivity | split; [exact HF|]]].
  split; apply group_checks_leading; try assumption; cbn [fold_right]; lia.
Qed.

End ValidationFurther.

(** X16: for counters in [0, 2 ^ 24) the validation number is always
    exactly 18 characters, every one of them a decimal digit, the first
    two of them ['0']. *)
Theorem SE_validation_number_format (self : SASGame) :
  0 <= _v_seq self < 2 ^ 24 -> 0 <= _v_id self < 2 ^ 24 ->
  exists s, fst (Game.SE_validation_number self) = Ok s
            /\ List.length s = 18%nat
            /\ Forall decimal_char s
            /\ firstn 2 s = Py.lit "00".
Proof.
  intros Hseq Hid. exists (Spec.validation_number (_v_seq self) (_v_id self)).
  split; [exact (SE_validation_number_pipeline self Hseq Hid)|].
  split; [apply validation_number_18 | split; [|reflexivity]].
  unfold Spec.validation_number. cbv zeta.
  destruct (validation_number_groups (_v_seq self) (_v_id self))
    as (x0 & r0 & x1 & r1 & E & _ & _ & HF & _).
  rewrite E. apply Forall_app. split.
  - repeat constructor; unfold decimal_char; cbn; lia.
  - apply Forall_map. revert HF. apply Forall_impl.
    intros d Hd. apply digit_character_char, Hd.
Qed.

Lemma SE_validation_number_format_witness :
  exists s,
    fst (Game.SE_validation_number (mkSASGame 9 300 _602_meters [])) = Ok s
    /\ List.length s = 18%nat
    /\ Forall decimal_char s
    /\ firstn 2 s = Py.lit "00".
Proof.
  apply (SE_validation_number_format (mkSASGame 9 300 _602_meters []));
    cbn [_v_seq _v_id]; lia.
Defined.

(** X17: for counters in range the sixteen digits after ["00"] are two
    groups of eight, and each group carries its own check: the first
    digit of a group is [d + 2 * c], where [d] is 0 or 1 and [c] is the
    sum of [d] and the seven digits after it, modulo 5. *)
Theorem SE_validation_number_check_digits (self : SASGame) :
  0 <= _v_seq self < 2 ^ 24 -> 0 <= _v_id self < 2 ^ 24 ->
  exists x0 r0 x1 r1,
    fst (Game.SE_validation_number self)
    = Ok (Py.lit "00" ++ map Py.digit_char (x0 :: r0 ++ x1 :: r1))
    /\ List.length r0 = 7%nat /\ List.length r1 = 7%nat
    /\ Forall (fun d => 0 <= d < 10) (x0 :: r0 ++ x1 :: r1)
    /\ group_checks x0 r0 /\ group_checks x1 r1.
Proof.
  intros Hseq Hid.
  destruct (validation_number_groups (_v_seq self) (_v_id self))
    as (x0 & r0 & x1 & r1 & E & L0 & L1 & HF & C0 & C1).
  exists x0, r0, x1, r1.
  split; [|repeat split; assumption].
  cbn [fst Game.SE_validation_number].
  rewrite (SE_validation_number_pipeline self Hseq Hid).
  unfold Spec.validation_number. cbv zeta. rewrite E. do 2 f_equal.
  apply map_ext_in. intros d Hd.
  apply digit_character_char. rewrite Forall_forall in HF. apply HF, Hd.
Qed.

Lemma SE_validation_number_check_digits_witness :
  exists x0 r0 x1 r1,
    fst (Game.SE_validation_number (mkSASGame 1 1 _602_meters []))
    = Ok (Py.lit "00" ++ map Py.digit_char (x0 :: r0 ++ x1 :: r1))
    /\ List.length r0 = 7%nat /\ List.length r1 = 7%nat
    /\ Forall (fun d => 0 <= d < 10) (x0 :: r0 ++ x1 :: r1)
    /\ group_checks x0 r0 /\ group_checks x1 r1.
Proof.
  apply (SE_validation_number_check_digits (mkSASGame 1 1 _602_meters []));
    cbn [_v_seq _v_id]; lia.
Defined.

(** ** Different counters, different validation numbers *)

Section ValidationInjective.

Lemma digit_character_injective (a b : Z) :
  decimal a -> decimal b ->
  Spec.digit_character a = Spec.digit_character b -> a = b.
Proof.
  unfold decimal, Spec.digit_character. intros Ha Hb E.
  apply (f_equal nat_of_ascii) in E.
  rewrite !nat_ascii_embedding in E by lia. lia.
Qed.

Lemma map_digit_character_injective (l l' : list Z) :
  Forall decimal l -> Forall decimal l' ->
  map Spec.digit_character l = map Spec.digit_character l' -> l = l'.
Proof.
  intros H. revert l'. induction H as [|a l Ha _ IH]; intros l' H' E.
  - destruct l'; [reflexivity | discriminate].
  - destruct l' as [|b l']; [discriminate|].
    inversion H' as [|? ? Hb Hl']; subst. cbn [map] in E.
    injection E as E1 E2.
    f_equal; [apply digit_character_injective; assumption | now apply IH].
Qed.

Lemma dec8_horner (n : Z) : 0 <= n < 10 ^ 8 -> horner 10 (Spec.dec8 n) 0 = n.
Proof.
  intros Hn. change (Spec.dec8 n)
    with (rev (map (fun j => (n / 10 ^ Z.of_nat j) mod 10) (seq 0 8))).
  rewrite <- (padded_digits 7 n Hn), horner_leading_zeros.
  apply horner_digits; lia.
Qed.

Lemma lor_check_parity (d d' s s' : Z) :
  0 <= d <= 1 -> 0 <= d' <= 1 ->
  Z.lor d (Z.shiftl (s mod 5) 1) = Z.lor d' (Z.shiftl (s' mod 5) 1) ->
  d = d'.
Proof.
  intros Hd Hd' E. rewrite !lor_check_value in E by assumption. lia.
Qed.

(** The injected digits determine the two numbers. *)
Lemma inject_injective (n0 n1 m0 m1 : Z) :
  counter n0 -> counter n1 -> counter m0 -> counter m1 ->
  Spec.inject (rev (Spec.dec8 n0 ++ Spec.dec8 n1))
  = Spec.inject (rev (Spec.dec8 m0 ++ Spec.dec8 m1)) ->
  n0 = m0 /\ n1 = m1.
Proof.
  intros Hn0 Hn1 Hm0 Hm1 E.
  pose proof (leading_digit n0 Hn0) as A0.
  pose proof (leading_digit n1 Hn1) as A1.
  pose proof (leading_digit m0 Hm0) as B0.
  pose proof (leading_digit m1 Hm1) as B1.
  assert (D : Spec.dec8 n0 = Spec.dec8 m0 /\ Spec.dec8 n1 = Spec.dec8 m1).
  { revert E. unfold Spec.inject, Spec.update, Spec.dec8. cbv zeta.
    cbn [app repeat firstn skipn Nat.sub rev nth List.length seq map].
    intros E. injection E as E0 E1 E2 E3 E4 E5 E6 E7 E8 E9 Ea Eb Ec Ed Ee Ef.
    apply lor_check_parity in E7; [|assumption|assumption].
    apply lor_check_parity in Ef; [|assumption|assumption].
    split; repeat (apply (f_equal2 (@cons Z)); [assumption|]); reflexivity. }
  destruct D as [D0 D1].
  unfold counter in *.
  rewrite <- (dec8_horner n0), <- (dec8_horner n1) by lia.
  rewrite <- (dec8_horner m0), <- (dec8_horner m1) by lia.
  now rewrite D0, D1.
Qed.

Lemma combine3_injective (x y z x' y' z' : Z) :
  byte x -> byte y -> byte z -> byte x' -> byte y' -> byte z' ->
  Spec.combine3 x y z = Spec.combine3 x' y' z' -> x = x' /\ y = y' /\ z = z'.
Proof.
  unfold byte, Spec.combine3. intros.
  rewrite !Z.shiftl_mul_pow2 in * by lia.
  change (2 ^ 8) with 256 in *. change (2 ^ 16) with 65536 in *. lia.
Qed.

Lemma checksum_pair_injective (x0 x1 y0 y1 lo hi : Z) :
  byte x0 -> byte x1 -> byte y0 -> byte y1 ->
  Spec.checksum [x0; x1] 0 = [lo; hi] ->
  Spec.checksum [y0; y1] 0 = [lo; hi] ->
  x0 = y0 /\ x1 = y1.
Proof.
  intros Hx0 Hx1 Hy0 Hy1 Ex Ey.
  apply crc_loop_injective; try assumption.
  assert (W : word16 0) by (unfold word16; lia).
  pose proof (crc_is_checksum [x0; x1] 0 W) as Cx.
  pose proof (crc_is_checksum [y0; y1] 0 W) as Cy.
  rewrite crc_ok in Cx, Cy by exact W. rewrite Ex in Cx. rewrite Ey in Cy.
  pose proof (crc_loop_word16 [x0; x1] 0 W) as [? ?].
  pose proof (crc_loop_word16 [y0; y1] 0 W) as [? ?].
  remember (crc_loop [x0; x1] 0) as a. remember (crc_loop [y0; y1] 0) as c.
  assert (a mod 256 = lo /\ a / 256 = hi) as [? ?] by (split; congruence).
  assert (c mod 256 = lo /\ c / 256 = hi) as [? ?] by (split; congruence).
  pose proof (Z.div_mod a 256 ltac:(lia)).
  pose proof (Z.div_mod c 256 ltac:(lia)). lia.
Qed.

Lemma lxor_cancel_r (a b c : Z) : Z.lxor a c = Z.lxor b c -> a = b.
Proof.
  intros E. apply (f_equal (fun t => Z.lxor t c)) in E.
  now rewrite !Z.lxor_assoc, !Z.lxor_nilpotent, !Z.lxor_0_r in E.
Qed.

Lemma le3_bytes (z : Z) : Forall byte (Spec.le3 z).
Proof.
  unfold Spec.le3. repeat constructor; apply Z.mod_pos_bound; lia.
Qed.

Lemma le3_value (z : Z) :
  counter z ->
  z = z mod 256 + 256 * ((z / 256) mod 256) + 65536 * ((z / 65536) mod 256).
Proof.
  intros [H0 H1]. change (2 ^ 24) with 16777216 in H1.
  pose proof (Z.div_mod z 256 ltac:(lia)).
  pose proof (Z.div_mod (z / 256) 256 ltac:(lia)).
  rewrite Z.div_div in * by lia. change (256 * 256) with 65536 in *.
  rewrite (Z.mod_small (z / 65536)).
  - lia.
  - split; [apply Z.div_pos; lia | apply Z.div_lt_upper_bound; lia].
Qed.

Lemma byte_lxor (a b : Z) : byte a -> byte b -> byte (Z.lxor a b).
Proof.
  unfold byte. intros Ha Hb. change 256 with (2 ^ 8) in *.
  apply lxor_bound; [lia | assumption | assumption].
Qed.

Lemma numbers_injective (seq id seq' id' : Z) :
  counter seq -> counter id -> counter seq' -> counter id' ->
  Spec.numbers seq id = Spec.numbers seq' id' -> seq = seq' /\ id = id'.
Proof.
  intros Hs Hi Hs' Hi' E.
  pose proof (le3_value seq Hs) as Vs. pose proof (le3_value id Hi) as Vi.
  pose proof (le3_value seq' Hs') as Vs'. pose proof (le3_value id' Hi') as Vi'.
  revert E. unfold Spec.numbers, Spec.checksums, Spec.scramble, Spec.le3.
  cbv zeta. cbn [app nth firstn skipn].
  set (a0 := seq mod 256) in *. set (a1 := (seq / 256) mod 256) in *.
  set (a2 := (seq / 65536) mod 256) in *.
  set (a3 := id mod 256) in *. set (a4 := (id / 256) mod 256) in *.
  set (a5 := (id / 65536) mod 256) in *.
  set (b0 := seq' mod 256) in *. set (b1 := (seq' / 256) mod 256) in *.
  set (b2 := (seq' / 65536) mod 256) in *.
  set (b3 := id' mod 256) in *. set (b4 := (id' / 256) mod 256) in *.
  set (b5 := (id' / 65536) mod 256) in *.
  assert (Ha : byte a0 /\ byte a1 /\ byte a2 /\ byte a3 /\ byte a4 /\ byte a5)
    by (repeat split; apply Z.mod_pos_bound; lia).
  assert (Hb : byte b0 /\ byte b1 /\ byte b2 /\ byte b3 /\ byte b4 /\ byte b5)
    by (repeat split; apply Z.mod_pos_bound; lia).
  destruct Ha as (Ha0 & Ha1 & Ha2 & Ha3 & Ha4 & Ha5).
  destruct Hb as (Hb0 & Hb1 & Hb2 & Hb3 & Hb4 & Hb5).
  destruct (checksum_bytes [a0; a1]) as (p0 & p1 & Ep & Hp0 & Hp1).
  destruct (checksum_bytes [Z.lxor a2 a0; Z.lxor a3 a1])
    as (p2 & p3 & Ep' & Hp2 & Hp3).
  destruct (checksum_bytes [Z.lxor a4 a0; Z.lxor a5 a1])
    as (p4 & p5 & Ep'' & Hp4 & Hp5).
  destruct (checksum_bytes [b0; b1]) as (q0 & q1 & Eq & Hq0 & Hq1).
  destruct (checksum_bytes [Z.lxor b2 b0; Z.lxor b3 b1])
    as (q2 & q3 & Eq' & Hq2 & Hq3).
  destruct (checksum_bytes [Z.lxor b4 b0; Z.lxor b5 b1])
    as (q4 & q5 & Eq'' & Hq4 & Hq5).
  rewrite Ep, Ep', Ep'', Eq, Eq', Eq''. cbn [app nth].
  intros E. injection E as E0 E1.
  apply combine3_injective in E0 as (<- & <- & <-); try assumption.
  apply combine3_injective in E1 as (<- & <- & <-); try assumption.
  destruct (checksum_pair_injective _ _ _ _ _ _ Ha0 Ha1 Hb0 Hb1 Ep Eq)
    as [F0 F1].
  destruct (checksum_pair_injective _ _ _ _ _ _
              (byte_lxor _ _ Ha2 Ha0) (byte_lxor _ _ Ha3 Ha1)
              (byte_lxor _ _ Hb2 Hb0) (byte_lxor _ _ Hb3 Hb1) Ep' Eq')
    as [F2 F3].
  destruct (checksum_pair_injective _ _ _ _ _ _
              (byte_lxor _ _ Ha4 Ha0) (byte_lxor _ _ Ha5 Ha1)
              (byte_lxor _ _ Hb4 Hb0) (byte_lxor _ _ Hb5 Hb1) Ep'' Eq'')
    as [F4 F5].
  rewrite <- F0 in F2, F4. rewrite <- F1 in F3, F5.
  apply lxor_cancel_r in F2, F3, F4, F5. lia.
Qed.

Lemma validation_number_injective (seq id seq' id' : Z) :
  counter seq -> counter id -> counter seq' -> counter id' ->
  Spec.validation_number seq id = Spec.validation_number seq' id' ->
  seq = seq' /\ id = id'.
Proof.
  intros Hs Hi Hs' Hi' E.
  apply numbers_injective; try assumption.
  destruct (numbers_counter seq id) as [Hn0 Hn1].
  destruct (numbers_counter seq' id') as [Hm0 Hm1].
  revert E. unfold Spec.validation_number, Spec.injected. cbv zeta.
  destruct (Spec.numbers seq id) as [n0 n1].
  destruct (Spec.numbers seq' id') as [m0 m1]. cbn [fst snd] in *.
  intros E. apply app_inv_head in E.
  apply map_digit_character_injective in E;
    try (apply Forall_rev, injected_decimal; assumption).
  apply (f_equal (@rev Z)) in E. rewrite !rev_involutive in E.
  destruct (inject_injective n0 n1 m0 m1 Hn0 Hn1 Hm0 Hm1 E) as [-> ->].
  reflexivity.
Qed.

Lemma Ok_injective {A} (a b : A) : Ok a = Ok b -> a = b.
Proof. intros H. now injection H. Qed.

End ValidationInjective.

(** X18: for counters in [0, 2 ^ 24) the validation number determines the
    counters: two games that get the same string have the same sequence
    and the same id. *)
Theorem SE_validation_number_injective (self other : SASGame) :
  0 <= _v_seq self < 2 ^ 24 -> 0 <= _v_id self < 2 ^ 24 ->
  0 <= _v_seq other < 2 ^ 24 -> 0 <= _v_id other < 2 ^ 24 ->
  fst (Game.SE_validation_number self) = fst (Game.SE_validation_number other) ->
  _v_seq self = _v_seq other /\ _v_id self = _v_id other.
Proof.
  intros Hs Hi Hs' Hi' E. unfold Game.SE_validation_number in E.
  cbn [fst] in E.
  rewrite (SE_validation_number_pipeline self Hs Hi) in E.
  rewrite (SE_validation_number_pipeline other Hs' Hi') in E.
  apply Ok_injective in E. apply validation_number_injective; assumption.
Qed.

Lemma SE_validation_number_injective_witness :
  _v_seq (mkSASGame 77 1234 _602_meters [])
  = _v_seq (mkSASGame 77 1234 [] [])
  /\ _v_id (mkSASGame 77 1234 _602_meters []) = _v_id (mkSASGame 77 1234 [] []).
Proof.
  apply (SE_validation_number_injective (mkSASGame 77 1234 _602_meters [])
           (mkSASGame 77 1234 [] []));
    cbn [_v_seq _v_id]; try lia. reflexivity.
Defined.
